(** * Study-guide viewer: section extractor, markdown line renderer,
      search matcher, bookmarks and notes

    A shallow embedding of the TypeScript sources
    - the content loader  ([parseMarkdownSections], [loadMarkdownContent]),
    - the component [MarkdownRenderer]  ([parseMarkdown]),
    - the component [SearchPanel]  ([searchResults]),
    - the component [NotesPanel]  ([addNote], [deleteNote]),
    - the component [App]  ([toggleBookmark]),
    - the component [TableOfContents]  (the list of bookmarks),
    together with the properties of the specification that concern them.

    Strings.  A JavaScript string is a sequence of UTF-16 code units.  The
    embedding covers the Latin-1 range: a string is a [list ascii], one
    [ascii] per code unit below 256.  On that range [toLowerCase], the
    white-space class [\s], the line terminators excluded by [.] and the
    case folding of the [i] flag are modelled exactly.

    Regular expressions.  The sources rely on regular-expression literals
    with lazy and greedy quantifiers, capture groups and anchors.  They are
    embedded through a small backtracking matcher ([RegExp.m]) so that each
    literal of the source is written down as a term of type [RegExp.re] and
    run, rather than paraphrased. *)

From Stdlib Require Import Ascii String List ZArith Lia Bool.
From Stdlib Require Import DecimalString.
From Stdlib Require DecimalNat DecimalN DecimalFacts.
From stdpp Require Import gmap strings list.

#[local] Set Warnings "-clear-no-such-hyp".
Local Open Scope Z_scope.

(** ** JavaScript strings *)

Abbreviation jsstring := (list ascii).

(** A string literal of the source. *)
Definition lit (s : string) : jsstring := list_ascii_of_string s.

Module JS.

Definition code (c : ascii) : N := N_of_ascii c.

(** [\s] of a regular expression and the characters removed by [trim]:
    TAB, LF, VT, FF, CR, SPACE and NBSP (the members below 256). *)
Definition isSpace (c : ascii) : bool :=
  let n := code c in
  ((9 <=? n) && (n <=? 13) || (n =? 32) || (n =? 160))%N.

(** LF and CR: the characters [.] does not match and at which a
    multiline [^] or [$] matches. *)
Definition isLineTerminator (c : ascii) : bool :=
  let n := code c in ((n =? 10) || (n =? 13))%N.

(** [.] (without the [s] flag). *)
Definition dot (c : ascii) : bool := negb (isLineTerminator c).

(** One code unit of [toLowerCase]: A-Z and the Latin-1 capitals
    (0xC0-0xDE except the multiplication sign 0xD7) move up by 32. *)
Definition lowerChar (c : ascii) : ascii :=
  let n := code c in
  if ((65 <=? n) && (n <=? 90) ||
      (192 <=? n) && (n <=? 222) && negb (n =? 215))%N
  then ascii_of_N (n + 32) else c.

(** [s.toLowerCase()] on a string of code units below 256: there it
    works unit by unit and keeps the length.  Strings with code units
    above 255, on some of which [toLowerCase] changes the length, have no
    term here; what is proved of [toLowerCase] is proved of Latin-1
    strings. *)
Definition toLowerCase (s : jsstring) : jsstring := map lowerChar s.

(** [s.startsWith(p)] *)
Fixpoint startsWith (p s : jsstring) : bool :=
  match p, s with
  | [], _ => true
  | a :: p', b :: s' => Ascii.eqb a b && startsWith p' s'
  | _ :: _, [] => false
  end.

(** [s.endsWith(p)] *)
Definition endsWith (p s : jsstring) : bool :=
  startsWith (rev p) (rev s).

(** [s.slice(b, e)]: a negative index counts from the end, both are
    clamped to the string, an empty range gives the empty string. *)
Definition slice (s : jsstring) (b e : Z) : jsstring :=
  let len := Z.of_nat (length s) in
  let from := if b <? 0 then Z.max (len + b) 0 else Z.min b len in
  let to := if e <? 0 then Z.max (len + e) 0 else Z.min e len in
  take (Z.to_nat (to - from)) (drop (Z.to_nat from) s).

(** [s.slice(b)] *)
Definition sliceFrom (s : jsstring) (b : Z) : jsstring :=
  slice s b (Z.of_nat (length s)).

(** [s.split(sep)] for a one-character separator; [''.split(sep)] is
    [['']]. *)
Fixpoint split (sep : ascii) (s : jsstring) : list jsstring :=
  match s with
  | [] => [[]]
  | c :: t =>
      if Ascii.eqb c sep then [] :: split sep t
      else match split sep t with
           | [] => [[c]]
           | l :: ls => (c :: l) :: ls
           end
  end.

Fixpoint trimStart (s : jsstring) : jsstring :=
  match s with
  | c :: t => if isSpace c then trimStart t else s
  | [] => []
  end.

Definition trimEnd (s : jsstring) : jsstring := rev (trimStart (rev s)).

(** [s.trim()] *)
Definition trim (s : jsstring) : jsstring := trimEnd (trimStart s).

(** [s.includes(q)] *)
Fixpoint includes (q s : jsstring) : bool :=
  startsWith q s ||
  match s with
  | [] => false
  | _ :: t => includes q t
  end.

(** [s.indexOf(q)]: the least index at which [q] occurs, [-1] if none. *)
Fixpoint indexOfFrom (q s : jsstring) (i : Z) : Z :=
  if startsWith q s then i
  else match s with
       | [] => -1
       | _ :: t => indexOfFrom q t (i + 1)
       end.

Definition indexOf (q s : jsstring) : Z := indexOfFrom q s 0.

(** Truthiness of a string: [''] is falsy. *)
Definition truthy (s : jsstring) : bool :=
  match s with [] => false | _ => true end.

(** [a || b] on strings. *)
Definition orElse (a b : jsstring) : jsstring := if truthy a then a else b.

(** [n.toString()] for a natural number, in decimal. *)
Definition natToString (n : nat) : jsstring :=
  lit (NilZero.string_of_uint (Nat.to_uint n)).

Definition numToString (n : N) : jsstring :=
  lit (NilZero.string_of_uint (N.to_uint n)).

Definition LF : ascii := ascii_of_N 10.
Definition CR : ascii := ascii_of_N 13.
Definition DQUOTE : ascii := ascii_of_N 34.

(** A text given line by line: the lines joined with [\n]. *)
Fixpoint unlines (ls : list string) : jsstring :=
  match ls with
  | [] => []
  | [l] => lit l
  | l :: ls' => lit l ++ LF :: unlines ls'
  end.

End JS.

(** ** Regular expressions *)

Module RegExp.

(** The constructs the literals of the sources use.  Quantifiers only
    ever apply to one character class there ([.+?], [\s+], [#+], [.*],
    [[^}]+] ...); the one optional part is a non-capturing group. *)
Inductive re : Type :=
| Eps
| Chr (p : ascii -> bool)                 (* a class, a literal, [.] *)
| Cat (r1 r2 : re)
| Rep (greedy : bool) (p : ascii -> bool) (* [p*] and [p*?] *)
| Opt (r : re)                            (* [(?:r)?] *)
| Grp (n : nat) (r : re)                  (* capture group number [n] *)
| Bol (multiline : bool)                  (* [^] *)
| Eol (multiline : bool).                 (* [$] *)

Definition Plus (greedy : bool) (p : ascii -> bool) : re :=
  Cat (Chr p) (Rep greedy p).

Fixpoint Seq (rs : list re) : re :=
  match rs with
  | [] => Eps
  | [r] => r
  | r :: rs' => Cat r (Seq rs')
  end.

Definition isChar (c : ascii) : ascii -> bool := Ascii.eqb c.

(** The characters of a literal text, one after the other. *)
Fixpoint Str (s : jsstring) : re :=
  match s with
  | [] => Eps
  | [c] => Chr (isChar c)
  | c :: s' => Cat (Chr (isChar c)) (Str s')
  end.

(** The capture groups of an expression and the least number of
    characters a match of it takes. *)
Fixpoint groupsOf (r : re) : list nat :=
  match r with
  | Cat r1 r2 => groupsOf r1 ++ groupsOf r2
  | Opt r1 => groupsOf r1
  | Grp n r1 => n :: groupsOf r1
  | _ => []
  end.

Fixpoint minLen (r : re) : nat :=
  match r with
  | Chr _ => 1
  | Cat r1 r2 => minLen r1 + minLen r2
  | Grp _ r1 => minLen r1
  | _ => 0
  end.

(** Captures: group number to captured text; an unset group is
    [undefined]. *)
Abbreviation caps := (gmap nat jsstring).

Section Matcher.
Context {R : Type}.

(** A position is the character before it (for a multiline [^]) and
    the text from it on. *)

(** Greedy [p*]: take as many as possible, give back one at a time. *)
Fixpoint repGreedy (p : ascii -> bool)
    (k : option ascii -> jsstring -> option R)
    (prev : option ascii) (s : jsstring) : option R :=
  match s with
  | a :: t =>
      if p a then
        match repGreedy p k (Some a) t with
        | Some x => Some x
        | None => k prev s
        end
      else k prev s
  | [] => k prev s
  end.

(** Lazy [p*?]: take as few as possible, one more on failure. *)
Fixpoint repLazy (p : ascii -> bool)
    (k : option ascii -> jsstring -> option R)
    (prev : option ascii) (s : jsstring) : option R :=
  match k prev s with
  | Some x => Some x
  | None =>
      match s with
      | a :: t => if p a then repLazy p k (Some a) t else None
      | [] => None
      end
  end.

(** Backtracking matcher in continuation-passing style. *)
Fixpoint m (r : re) (prev : option ascii) (s : jsstring) (c : caps)
    (k : option ascii -> jsstring -> caps -> option R) : option R :=
  match r with
  | Eps => k prev s c
  | Chr p =>
      match s with
      | a :: t => if p a then k (Some a) t c else None
      | [] => None
      end
  | Cat r1 r2 => m r1 prev s c (fun prev' s' c' => m r2 prev' s' c' k)
  | Rep true p => repGreedy p (fun prev' s' => k prev' s' c) prev s
  | Rep false p => repLazy p (fun prev' s' => k prev' s' c) prev s
  | Opt r1 =>
      match m r1 prev s c k with
      | Some x => Some x
      | None => k prev s c
      end
  | Grp n r1 =>
      m r1 prev s c (fun prev' s' c' =>
        k prev' s' (<[n := take (length s - length s') s]> c'))
  | Bol ml =>
      if match prev with
         | None => true
         | Some a => ml && JS.isLineTerminator a
         end
      then k prev s c else None
  | Eol ml =>
      if match s with
         | [] => true
         | a :: _ => ml && JS.isLineTerminator a
         end
      then k prev s c else None
  end.
End Matcher.

(** A match starting exactly here: the text left after it and the
    captures. *)
Definition matchHere (r : re) (prev : option ascii) (s : jsstring)
    : option (jsstring * caps) :=
  m r prev s ∅ (fun _ s' c => Some (s', c)).

Record MatchResult := {
  index : nat;          (* where the match starts *)
  matched : jsstring;   (* [match[0]] *)
  groups : caps;        (* [match[1]], [match[2]], ... *)
  after : jsstring      (* the text behind the match *)
}.

(** The position reached after reading [u]. *)
Fixpoint advance (prev : option ascii) (u : jsstring) : option ascii :=
  match u with
  | [] => prev
  | a :: t => advance (Some a) t
  end.

Fixpoint execFrom (r : re) (prev : option ascii) (s : jsstring) (i : nat)
    : option MatchResult :=
  match matchHere r prev s with
  | Some (s', c) =>
      Some {| index := i; matched := take (length s - length s') s;
              groups := c; after := s' |}
  | None =>
      match s with
      | [] => None
      | a :: t => execFrom r (Some a) t (S i)
      end
  end.

(** [s.match(r)] for a regular expression without the [g] flag: the
    leftmost match, [None] for [null]. *)
Definition exec (r : re) (s : jsstring) : option MatchResult :=
  execFrom r None s 0.

(** [s.replace(r, repl)] without the [g] flag and with a replacement
    text free of [$]. *)
Definition replaceFirst (r : re) (repl : jsstring) (s : jsstring)
    : jsstring :=
  match exec r s with
  | Some mr => take (index mr) s ++ repl ++ after mr
  | None => s
  end.

(** [s.replace(r, repl)] with the [g] flag.  [repl] builds the
    replacement from the matched text and the captures.  [skip] counts
    the characters of the current match still to be passed over; after
    an empty match the scan moves on by one character. *)
Fixpoint replaceAllFrom (r : re) (repl : jsstring -> caps -> jsstring)
    (skip : nat) (prev : option ascii) (s : jsstring) : jsstring :=
  match skip with
  | S n =>
      match s with
      | [] => []
      | a :: t => replaceAllFrom r repl n (Some a) t
      end
  | O =>
      match matchHere r prev s with
      | Some (s', c) =>
          let n := (length s - length s')%nat in
          repl (take n s) c ++
          match s with
          | [] => []
          | a :: t =>
              match n with
              | O => a :: replaceAllFrom r repl O (Some a) t
              | S n' => replaceAllFrom r repl n' (Some a) t
              end
          end
      | None =>
          match s with
          | [] => []
          | a :: t => a :: replaceAllFrom r repl O (Some a) t
          end
      end
  end.

Definition replaceAll (r : re) (repl : jsstring -> caps -> jsstring)
    (s : jsstring) : jsstring :=
  replaceAllFrom r repl O None s.

End RegExp.


(** ** The content loader *)

Module ContentLoader.
Import JS RegExp.

Record DocumentSection := {
  id : jsstring;
  title : jsstring;
  level : nat
}.

(** [Document]; its fields [title], [content] and [sections] carry the
    prefix [doc_] here, since [title] also names a field of
    [DocumentSection]. *)
Record Document := {
  doc_title : jsstring;
  doc_content : jsstring;
  doc_sections : list DocumentSection
}.

(** [/^#+/] *)
Definition reHashes : re :=
  Seq [Bol false; Plus true (isChar "#")].

(** [/^#+\s*/] *)
Definition reHashesSpace : re :=
  Seq [Bol false; Plus true (isChar "#"); Rep true isSpace].

(** [/\s*\{#.*\}$/] *)
Definition reIdSuffix : re :=
  Seq [Rep true isSpace; Str (lit "{#"); Rep true dot; Chr (isChar "}");
       Eol false].

(** [/\{#([^}]+)\}/] *)
Definition reIdMatch : re :=
  Seq [Str (lit "{#"); Grp 1 (Plus true (fun c => negb (isChar "}" c)));
       Chr (isChar "}")].

(** [[a-z0-9]] *)
Definition isLowerAlnum (c : ascii) : bool :=
  let n := code c in
  ((97 <=? n) && (n <=? 122) || (48 <=? n) && (n <=? 57))%N.

(** [/[^a-z0-9]+/g] *)
Definition reNonAlnum : re :=
  Plus true (fun c => negb (isLowerAlnum c)).

(** [/^#\s+(.+)$/m] *)
Definition reFirstHeading : re :=
  Seq [Bol true; Chr (isChar "#"); Plus true isSpace; Grp 1 (Plus true dot);
       Eol true].

(** [title.toLowerCase().replace(/[^a-z0-9]+/g, '-')] *)
Definition slugOfTitle (title : jsstring) : jsstring :=
  replaceAll reNonAlnum (fun _ _ => lit "-") (toLowerCase title).

(** The body of the loop of [parseMarkdownSections] for one line: the
    section pushed for it, if any. *)
Definition sectionOfLine (line : jsstring) : option DocumentSection :=
  let trimmedLine := trim line in
  if startsWith (lit "#") trimmedLine then
    let level :=
      match exec reHashes trimmedLine with
      | Some mr =>
          match length (matched mr) with O => 1%nat | n => n end
      | None => 1%nat
      end in
    let title :=
      replaceFirst reIdSuffix []
        (replaceFirst reHashesSpace [] trimmedLine) in
    let idMatch := exec reIdMatch trimmedLine in
    let id :=
      match idMatch with
      | Some mr => default [] (groups mr !! 1%nat)
      | None => slugOfTitle title
      end in
    Some {| id := id; title := title; level := level |}
  else None.

Fixpoint sectionsLoop (lines : list jsstring)
    (sections : list DocumentSection) : list DocumentSection :=
  match lines with
  | [] => sections
  | line :: lines' =>
      sectionsLoop lines'
        match sectionOfLine line with
        | Some sec => sections ++ [sec]
        | None => sections
        end
  end.

Definition parseMarkdownSections (content : jsstring)
    : list DocumentSection :=
  sectionsLoop (split LF content) [].

(** What [contentMap[contentId]] evaluates to.  [contentMap] is an object
    literal with string values; a key it does not own is looked up on
    [Object.prototype], whose members are functions and objects. *)
Inductive Looked :=
| Undefined
| StringValue (s : jsstring)
| Inherited.

Definition objectPrototypeKeys : list jsstring :=
  map lit ["constructor"; "__proto__"; "hasOwnProperty"; "isPrototypeOf";
           "propertyIsEnumerable"; "toLocaleString"; "toString"; "valueOf";
           "__defineGetter__"; "__defineSetter__"; "__lookupGetter__";
           "__lookupSetter__"]%string.

Definition getProp (contentMap : gmap jsstring jsstring) (key : jsstring)
    : Looked :=
  match contentMap !! key with
  | Some s => StringValue s
  | None =>
      if bool_decide (key ∈ objectPrototypeKeys) then Inherited
      else Undefined
  end.

(** What the [try] block can throw. *)
Inductive Thrown :=
| Error (message : jsstring)   (* [throw new Error(...)] *)
| TypeError.                   (* [content.match] is not a function *)

(** The [try] block of [loadMarkdownContent].  The dynamic import of the
    content map is taken to succeed with [contentMap]. *)
Definition tryLoad (contentMap : gmap jsstring jsstring)
    (contentId : jsstring) : Thrown + Document :=
  match getProp contentMap contentId with
  | Inherited => inl TypeError
  | Undefined => inl (Error (lit "Content not found for ID: " ++ contentId))
  | StringValue content =>
      if negb (truthy content) then
        inl (Error (lit "Content not found for ID: " ++ contentId))
      else
        let titleMatch := exec reFirstHeading content in
        let title :=
          match titleMatch with
          | Some mr => default [] (groups mr !! 1%nat)
          | None => lit "Untitled Document"
          end in
        let sections := parseMarkdownSections content in
        inr {| doc_title := title; doc_content := content;
               doc_sections := sections |}
  end.

(** The value returned by the [catch] block. *)
Definition fallbackDocument (contentId : jsstring) : Document :=
  {| doc_title := lit "Document Not Found";
     doc_content :=
       lit "# Document Not Found" ++ [LF; LF] ++
       lit "The requested document " ++ [DQUOTE] ++ contentId ++
       [DQUOTE] ++ lit " could not be loaded.";
     doc_sections := [] |}.

(** [loadMarkdownContent]: the document the returned promise resolves to
    (the [catch] block also writes to the console, which is left out). *)
Definition loadMarkdownContent (contentMap : gmap jsstring jsstring)
    (contentId : jsstring) : Document :=
  match tryLoad contentMap contentId with
  | inr document => document
  | inl _ => fallbackDocument contentId
  end.

End ContentLoader.


(** ** The component [MarkdownRenderer] *)

Module MarkdownRenderer.
Import JS RegExp.

(** The React elements [parseMarkdown] pushes, with their [key] and the
    data they display.  The class names, which only depend on
    [isDarkMode], and the copy button's transient state are left out. *)
Inductive Element :=
| CodeBlock (blockId : jsstring) (language : jsstring) (code : jsstring)
| H1 (key : nat) (title : jsstring)
| H2 (key : nat) (id : jsstring) (title : jsstring) (isBookmarked : bool)
| H3 (key : nat) (title : jsstring)
| DefinitionItem (key : nat) (term : jsstring) (definition : jsstring)
| Li (key : nat) (text : jsstring)
| Hr (key : nat)
| Caption (key : nat) (text : jsstring)
| P (key : nat) (line : jsstring).

(** [/^## (.+?)(?:\s+\{#(.+?)\})?$/] *)
Definition reH2 : re :=
  Seq [Bol false; Str (lit "## "); Grp 1 (Plus false dot);
       Opt (Seq [Plus true isSpace; Str (lit "{#"); Grp 2 (Plus false dot);
                 Chr (isChar "}")]);
       Eol false].

(** [/\s+/g] *)
Definition reSpaces : re := Plus true isSpace.

(** [/^- \*\*(.+?)\*\*:\s*(.+)$/] *)
Definition reDefinition : re :=
  Seq [Bol false; Str (lit "- **"); Grp 1 (Plus false dot); Str (lit "**:");
       Rep true isSpace; Grp 2 (Plus true dot); Eol false].

(** [x || d] where [x] is a capture that may be [undefined]. *)
Definition captureOr (x : option jsstring) (d : jsstring) : jsstring :=
  match x with
  | Some s => orElse s d
  | None => d
  end.

(** [title.toLowerCase().replace(/\s+/g, '-')] *)
Definition slugOfTitle (title : jsstring) : jsstring :=
  replaceAll reSpaces (fun _ _ => lit "-") (toLowerCase title).

(** [match?.[1] || line.slice(3)] *)
Definition h2Title (line : jsstring) : jsstring :=
  captureOr (exec reH2 line ≫= fun mr => groups mr !! 1%nat)
            (sliceFrom line 3).

(** [match?.[2] || title.toLowerCase().replace(/\s+/g, '-')] *)
Definition h2Id (line : jsstring) : jsstring :=
  captureOr (exec reH2 line ≫= fun mr => groups mr !! 2%nat)
            (slugOfTitle (h2Title line)).

(** The variables of [parseMarkdown]. *)
Record State := {
  elements : list Element;
  currentCodeBlock : jsstring;
  inCodeBlock : bool;
  codeBlockLanguage : jsstring;
  codeBlockId : nat
}.

Definition initial : State :=
  {| elements := []; currentCodeBlock := []; inCodeBlock := false;
     codeBlockLanguage := []; codeBlockId := 0 |}.

Definition push (e : Element) (st : State) : State :=
  {| elements := elements st ++ [e];
     currentCodeBlock := currentCodeBlock st;
     inCodeBlock := inCodeBlock st;
     codeBlockLanguage := codeBlockLanguage st;
     codeBlockId := codeBlockId st |}.

(** The element pushed for line [i] outside a code block, if any. *)
Definition elementOfLine (bookmarks : list jsstring) (i : nat)
    (line : jsstring) : option Element :=
  if startsWith (lit "# ") line then
    Some (H1 i (sliceFrom line 2))
  else if startsWith (lit "## ") line then
    let title := h2Title line in
    let id := h2Id line in
    let isBookmarked := bool_decide (id ∈ bookmarks) in
    Some (H2 i id title isBookmarked)
  else if startsWith (lit "### ") line then
    Some (H3 i (sliceFrom line 4))
  else if startsWith (lit "- **") line then
    match exec reDefinition line with
    | Some mr =>
        Some (DefinitionItem i (default [] (groups mr !! 1%nat))
                               (default [] (groups mr !! 2%nat)))
    | None => None
    end
  else if startsWith (lit "- ") line then
    Some (Li i (sliceFrom line 2))
  else if bool_decide (trim line = lit "---") then
    Some (Hr i)
  else if startsWith (lit "*") line && endsWith (lit "*") line then
    Some (Caption i (slice line 1 (-1)))
  else if truthy (trim line) then
    Some (P i line)
  else None.

(** One turn of the [for] loop, on line [i]. *)
Definition step (bookmarks : list jsstring) (st : State) (i : nat)
    (line : jsstring) : State :=
  if startsWith (lit "```") line then
    if inCodeBlock st then
      {| elements :=
           elements st ++
           [CodeBlock (lit "code-" ++ natToString (codeBlockId st))
                      (codeBlockLanguage st) (currentCodeBlock st)];
         currentCodeBlock := [];
         inCodeBlock := false;
         codeBlockLanguage := [];
         codeBlockId := S (codeBlockId st) |}
    else
      {| elements := elements st;
         currentCodeBlock := currentCodeBlock st;
         inCodeBlock := true;
         codeBlockLanguage := sliceFrom line 3;
         codeBlockId := codeBlockId st |}
  else if inCodeBlock st then
    {| elements := elements st;
       currentCodeBlock := currentCodeBlock st ++ line ++ [LF];
       inCodeBlock := true;
       codeBlockLanguage := codeBlockLanguage st;
       codeBlockId := codeBlockId st |}
  else
    match elementOfLine bookmarks i line with
    | Some e => push e st
    | None => st
    end.

(** The [for] loop from index [i] on. *)
Fixpoint run (bookmarks : list jsstring) (st : State) (i : nat)
    (lines : list jsstring) : State :=
  match lines with
  | [] => st
  | line :: lines' => run bookmarks (step bookmarks st i line) (S i) lines'
  end.

Definition parseLines (bookmarks : list jsstring) (lines : list jsstring)
    : list Element :=
  elements (run bookmarks initial 0 lines).

Definition parseMarkdown (bookmarks : list jsstring) (text : jsstring)
    : list Element :=
  parseLines bookmarks (split LF text).

End MarkdownRenderer.


(** ** The component [SearchPanel] *)

Module SearchPanel.
Import JS RegExp.

Record SearchResult := {
  sectionId : jsstring;
  sectionTitle : jsstring;
  snippet : jsstring;
  line : nat
}.

(** [currentSection] *)
Record Cursor := {
  id : jsstring;
  title : jsstring
}.

(** [/^## (.+?)(?:\s+\{#(.+?)\})?$/], the same literal as in
    [MarkdownRenderer]. *)
Definition reHeader : re :=
  Seq [Bol false; Str (lit "## "); Grp 1 (Plus false dot);
       Opt (Seq [Plus true isSpace; Str (lit "{#"); Grp 2 (Plus false dot);
                 Chr (isChar "}")]);
       Eol false].

(** [/\s+/g] *)
Definition reSpaces : re := Plus true isSpace.

(** The characters with a meaning of their own in a pattern. *)
Definition isSyntaxChar (c : ascii) : bool :=
  bool_decide (c ∈ lit "^$\.*+?()[]{}|").

(** A pattern character under the [i] flag: on the Latin-1 range two
    characters match when their lower-case forms agree. *)
Definition sameLetter (c : ascii) : ascii -> bool :=
  fun a => Ascii.eqb (lowerChar a) (lowerChar c).

(** The pattern [q] read as a regular expression, for the patterns made
    of ordinary characters and [.].  [None] means that the pattern is
    outside this fragment and says nothing about the constructor, which
    accepts some of those patterns ([a+], [[a-z]]) and rejects others
    ([(]) with a [SyntaxError]. *)
Fixpoint patternOf (q : jsstring) : option re :=
  match q with
  | [] => Some Eps
  | c :: q' =>
      if Ascii.eqb c "." then Cat (Chr dot) <$> patternOf q'
      else if isSyntaxChar c then None
      else Cat (Chr (sameLetter c)) <$> patternOf q'
  end.

(** [new RegExp(`(${searchQuery})`, 'gi')] *)
Definition queryRegExp (searchQuery : jsstring) : option re :=
  Grp 1 <$> patternOf searchQuery.

(** [snippet.replace(regex, '<mark>$1</mark>')] *)
Definition highlight (regex : re) (snippet : jsstring) : jsstring :=
  replaceAll regex
    (fun _ c => lit "<mark>" ++ default [] (c !! 1%nat) ++ lit "</mark>")
    snippet.

(** The snippet of a line that contains the query, before the search
    term is highlighted. *)
Definition window (searchQuery line : jsstring) : jsstring :=
  let queryIndex := indexOf (toLowerCase searchQuery) (toLowerCase line) in
  let start := Z.max 0 (queryIndex - 30) in
  let end_ :=
    Z.min (Z.of_nat (length line))
          (queryIndex + Z.of_nat (length searchQuery) + 30) in
  let snippet := slice line start end_ in
  let snippet := if 0 <? start then lit "..." ++ snippet else snippet in
  let snippet :=
    if end_ <? Z.of_nat (length line) then snippet ++ lit "..."
    else snippet in
  snippet.

(** The marker for the patterns covered by [patternOf]: the function
    [s => s.replace(regex, '<mark>$1</mark>')] for the regular expression
    of the query.  It is [None] outside the fragment, so a property of
    the search with [markPattern] is a property of the source for the
    queries of the fragment only, and is stated for those. *)
Definition markPattern (searchQuery : jsstring)
    : option (jsstring -> jsstring) :=
  highlight <$> queryRegExp searchQuery.

Section Search.

(** [mark q] stands for [new RegExp(`(${q})`, 'gi')] together with the
    replacement it is built for: the function
    [s => s.replace(regex, '<mark>$1</mark>')], or [None] when the
    constructor throws.  The search is defined for any such [mark];
    [markPattern] is the one the properties of snippets are proved
    for. *)
Variable mark : jsstring -> option (jsstring -> jsstring).

(** The snippet of a line that contains the query. *)
Definition snippetOf (searchQuery line : jsstring) : option jsstring :=
  replace ← mark searchQuery;
  Some (replace (window searchQuery line)).

(** The callback of [lines.forEach], on [line] at [index]. *)
Definition visit (searchQuery : jsstring)
    (st : list SearchResult * Cursor) (index : nat) (line : jsstring)
    : option (list SearchResult * Cursor) :=
  let '(results, currentSection) := st in
  match exec reHeader line with
  | Some headerMatch =>
      let h1 := default [] (groups headerMatch !! 1%nat) in
      Some (results,
            {| title := h1;
               id := MarkdownRenderer.captureOr (groups headerMatch !! 2%nat)
                       (replaceAll reSpaces (fun _ _ => lit "-")
                          (toLowerCase h1)) |})
  | None =>
      if includes (toLowerCase searchQuery) (toLowerCase line) then
        snippet ← snippetOf searchQuery line;
        Some (results ++
              [{| sectionId := id currentSection;
                  sectionTitle := title currentSection;
                  snippet := snippet;
                  line := (index + 1)%nat |}],
              currentSection)
      else Some st
  end.

Fixpoint forEach (searchQuery : jsstring)
    (st : list SearchResult * Cursor) (index : nat) (lines : list jsstring)
    : option (list SearchResult * Cursor) :=
  match lines with
  | [] => Some st
  | line :: lines' =>
      st' ← visit searchQuery st index line;
      forEach searchQuery st' (S index) lines'
  end.

(** [searchResults] for the document text [content] and the query
    [searchQuery]; [None] when the constructor throws on the way. *)
Definition searchResults (content searchQuery : jsstring)
    : option (list SearchResult) :=
  if negb (truthy (trim searchQuery)) then Some []
  else
    let lines := split LF content in
    let currentSection :=
      {| id := lit "intro"; title := lit "Introduction" |} in
    '(results, _) ← forEach searchQuery ([], currentSection) 0 lines;
    Some (take 20 results).

End Search.

End SearchPanel.


(** ** The component [App] *)

Module App.

(** The state update of [toggleBookmark]: [prev] is the bookmark list. *)
Definition toggleBookmark (prev : list jsstring) (sectionId : jsstring)
    : list jsstring :=
  if bool_decide (sectionId ∈ prev)
  then List.filter (fun id => negb (bool_decide (id = sectionId))) prev
  else prev ++ [sectionId].

End App.


(** ** The component [NotesPanel] *)

Module NotesPanel.
Import JS.

Record Note := {
  id : jsstring;
  title : jsstring;
  content : jsstring;
  section : jsstring;
  tags : list jsstring;
  createdAt : N;
  updatedAt : N
}.

(** The form behind [newNote]: four text fields. *)
Record NewNote := {
  new_title : jsstring;
  new_content : jsstring;
  new_section : jsstring;
  new_tags : jsstring
}.

(** The state of the panel that [addNote] reads and sets. *)
Record Panel := {
  notes : list Note;
  newNote : NewNote;
  showNewNoteForm : bool
}.

Definition emptyForm : NewNote :=
  {| new_title := []; new_content := []; new_section := [];
     new_tags := [] |}.

(** [newNote.tags.split(',').map(tag => tag.trim()).filter(Boolean)] *)
Definition tagsOf (tags : jsstring) : list jsstring :=
  List.filter truthy (map trim (split "," tags)).

(** The three readings of the clock in [addNote], in milliseconds:
    [Date.now()] and the two [new Date()]. *)
Record Clock := {
  now : N;
  created : N;
  updated : N
}.

Definition addNote (clock : Clock) (p : Panel) : Panel :=
  let n := newNote p in
  if truthy (trim (new_title n)) && truthy (trim (new_content n)) then
    let note :=
      {| id := numToString (now clock);
         title := new_title n;
         content := new_content n;
         section := orElse (new_section n) (lit "General");
         tags := tagsOf (new_tags n);
         createdAt := created clock;
         updatedAt := updated clock |} in
    {| notes := note :: notes p;
       newNote := emptyForm;
       showNewNoteForm := false |}
  else p.

End NotesPanel.


(** ** Vocabulary of the properties *)

Module Heading.
Import JS.

(** The heading line [## TITLE {#ID}]. *)
Definition headingLine (TITLE ID : jsstring) : jsstring :=
  lit "## " ++ TITLE ++ lit " {#" ++ ID ++ lit "}".

(** What both the extractor and the renderer are to make of it. *)
Definition agreeOn (TITLE ID : jsstring) : Prop :=
  ContentLoader.sectionOfLine (headingLine TITLE ID) =
    Some {| ContentLoader.id := ID; ContentLoader.title := TITLE;
            ContentLoader.level := 2 |} /\
  MarkdownRenderer.h2Id (headingLine TITLE ID) = ID /\
  MarkdownRenderer.h2Title (headingLine TITLE ID) = TITLE /\
  forall bookmarks i,
    MarkdownRenderer.elementOfLine bookmarks i (headingLine TITLE ID) =
      Some (MarkdownRenderer.H2 i ID TITLE (bool_decide (ID ∈ bookmarks))).

(** A title without braces. *)
Definition noBraces (TITLE : jsstring) : bool :=
  negb (existsb (fun c => Ascii.eqb c "{" || Ascii.eqb c "}") TITLE).

(** A title that is not empty, has no line terminator and no opening
    brace, and neither starts nor ends with white space. *)
Definition validTitle (TITLE : jsstring) : bool :=
  forallb dot TITLE &&
  negb (existsb (Ascii.eqb "{") TITLE) &&
  match TITLE with
  | a :: _ => negb (isSpace a)
  | [] => false
  end &&
  match rev TITLE with
  | b :: _ => negb (isSpace b)
  | [] => false
  end.

(** An id that is not empty and has no line terminator and no closing
    brace. *)
Definition validId (ID : jsstring) : bool :=
  truthy ID && forallb dot ID && negb (existsb (Ascii.eqb "}") ID).

(** The same, as propositions. *)
Record wfTitle (TITLE : jsstring) : Prop := {
  title_dots : Forall (fun a => dot a = true) TITLE;
  title_no_brace : "{"%char ∉ TITLE;
  title_first : exists a T', TITLE = a :: T' /\ isSpace a = false;
  title_last : exists T' b, TITLE = T' ++ [b] /\ isSpace b = false
}.

Record wfId (ID : jsstring) : Prop := {
  id_nonempty : ID <> [];
  id_dots : Forall (fun a => dot a = true) ID;
  id_no_brace : "}"%char ∉ ID
}.

(** A heading of nodejs.md. *)
Definition ampersandHeading : jsstring :=
  lit "## Authentication & Security".

End Heading.

Module Snippet.
Import JS RegExp SearchPanel.

(** A query whose characters have no meaning of their own in a pattern. *)
Definition plainQuery (q : jsstring) : Prop :=
  Forall (fun c => isSyntaxChar c = false) q.

Definition plainQueryb (q : jsstring) : bool :=
  forallb (fun c => negb (isSyntaxChar c)) q.

(** [q] occurs at the start of [s], letter case aside. *)
Definition occursHere (q s : jsstring) : bool :=
  startsWith (toLowerCase q) (toLowerCase s).

(** [out] is [s] with the occurrences of [q] wrapped in the highlight
    marker: scanning from the left, an occurrence is wrapped and the scan
    goes on behind it; any other character is copied. *)
Inductive Marked (q : jsstring) : jsstring -> jsstring -> Prop :=
| Marked_nil : Marked q [] []
| Marked_hit s out :
    occursHere q s = true ->
    Marked q (drop (length q) s) out ->
    Marked q s (lit "<mark>" ++ take (length q) s ++ lit "</mark>" ++ out)
| Marked_miss a s out :
    occursHere q (a :: s) = false ->
    Marked q s out ->
    Marked q (a :: s) (a :: out).

(** [i] is the first index at which [q] occurs in [s]. *)
Definition firstOccurrence (q s : jsstring) (i : nat) : Prop :=
  startsWith q (drop i s) = true /\
  forall j, (j < i)%nat -> startsWith q (drop j s) = false.

(** Up to 30 characters before and 30 after the [n] characters at index
    [i] of [line], with an ellipsis at each end where the line goes on
    beyond the window. *)
Definition windowAround (line : jsstring) (n i : nat) : jsstring :=
  let start := (i - 30)%nat in
  let stop := Nat.min (length line) (i + n + 30) in
  (if (0 <? start)%nat then lit "..." else []) ++
  take (stop - start) (drop start line) ++
  (if (stop <? length line)%nat then lit "..." else []).

(** The snippet of [line] for the query [q]. *)
Definition snippetSpec (q line snippet : jsstring) : Prop :=
  exists i,
    firstOccurrence (toLowerCase q) (toLowerCase line) i /\
    Marked q (windowAround line (length q) i) snippet.

(** Visiting [line] records one more result, with that snippet, the
    current section and the 1-based line number. *)
Definition recordsSnippet (q line : jsstring) : Prop :=
  forall results cur index,
  exists s,
    snippetSpec q line s /\
    visit markPattern q (results, cur) index line =
      Some (results ++ [{| sectionId := id cur; sectionTitle := title cur;
                           snippet := s; line := (index + 1)%nat |}], cur).

(** [r] is the result for the line [l] at index [i]. *)
Definition resultFor (q l : jsstring) (i : nat) (r : SearchResult) : Prop :=
  line r = (i + 1)%nat /\ snippetSpec q l (snippet r).

(** No line contains the query, letter case aside. *)
Definition occursNowhere (q : jsstring) (lines : list jsstring) : bool :=
  forallb (fun line => negb (includes (toLowerCase q) (toLowerCase line)))
          lines.

(** The document of the scenarios. *)
Definition sampleDocument : jsstring :=
  unlines ["# Doc"; ""; "## Intro {#intro}"; "Hello world"; "";
           "## Next"; "Bye"]%string.

End Snippet.

Module Fence.
Import JS MarkdownRenderer.

(** A fence delimiter line. *)
Definition isFence (line : jsstring) : bool := startsWith (lit "```") line.

Definition fenceCount (lines : list jsstring) : nat :=
  length (List.filter isFence lines).

(** The lines inside a fence, each followed by a line feed. *)
Definition verbatim (interior : list jsstring) : jsstring :=
  concat (map (fun line => line ++ [LF]) interior).

(** Outside a fence the code buffer is empty. *)
Definition buffer_ok (st : State) : Prop :=
  inCodeBlock st = false -> currentCodeBlock st = [].

(** The state [st] with the elements [es] in front of its own. *)
Definition prepend (es : list Element) (st : State) : State :=
  {| elements := es ++ elements st;
     currentCodeBlock := currentCodeBlock st;
     inCodeBlock := inCodeBlock st;
     codeBlockLanguage := codeBlockLanguage st;
     codeBlockId := codeBlockId st |}.

(** The state behind [n] closed fences, before any element. *)
Definition afterFence (n : nat) : State :=
  {| elements := []; currentCodeBlock := []; inCodeBlock := false;
     codeBlockLanguage := []; codeBlockId := n |}.

(** The fenced block of the scenario. *)
Definition fencedSample : jsstring :=
  unlines ["```js"; "function f() { return 1; }"; "```"]%string.

(** A bullet of python.md, and a bullet without emphasis. *)
Definition boldBullet : jsstring :=
  lit "- **List:** Ordered, mutable, allows duplicates. Use for dynamic collections needing frequent item changes.".

Definition plainBullet : jsstring :=
  lit "- List: Ordered, mutable, allows duplicates.".

End Fence.

Module Bookmarks.

(** The bookmarks other than [x], in their order. *)
Definition others (x : jsstring) (l : list jsstring) : list jsstring :=
  List.filter (fun y => negb (bool_decide (y = x))) l.

End Bookmarks.

Module Notes.
Import JS NotesPanel.

(** A text with no white space at either end. *)
Definition isTrimmed (s : jsstring) : bool :=
  match s with
  | [] => true
  | a :: _ => negb (isSpace a)
  end &&
  match rev s with
  | [] => true
  | b :: _ => negb (isSpace b)
  end.

(** The form can be submitted. *)
Definition canSubmit (n : NewNote) : bool :=
  truthy (trim (new_title n)) && truthy (trim (new_content n)).

End Notes.


(** ** Further vocabulary *)

Module Slug.
Import JS.

(** The text behind the leading run of characters of the class [p]. *)
Fixpoint afterRun (p : ascii -> bool) (s : jsstring) : jsstring :=
  match s with
  | a :: t => if p a then afterRun p t else s
  | [] => []
  end.

(** Every run of characters of the class [p] replaced by one hyphen;
    [inRun] tells that the character before belongs to a run. *)
Fixpoint collapse (p : ascii -> bool) (inRun : bool) (s : jsstring)
    : jsstring :=
  match s with
  | [] => []
  | a :: t =>
      if p a then
        if inRun then collapse p true t else "-"%char :: collapse p true t
      else a :: collapse p false t
  end.

(** The letters of ASCII and the digits. *)
Definition isAsciiAlnum (c : ascii) : bool :=
  let n := code c in
  ((48 <=? n) && (n <=? 57) || (65 <=? n) && (n <=? 90) ||
   (97 <=? n) && (n <=? 122))%N.

(** White space other than a line terminator. *)
Definition isBlank (c : ascii) : bool := isSpace c && dot c.

(** A lower-case letter of ASCII, a digit or a hyphen. *)
Definition isSlugChar (c : ascii) : bool :=
  ContentLoader.isLowerAlnum c || Ascii.eqb c "-".

(** No two hyphens side by side. *)
Fixpoint noDoubleHyphen (s : jsstring) : bool :=
  match s with
  | a :: t =>
      match t with
      | b :: _ => negb (Ascii.eqb a "-" && Ascii.eqb b "-")
      | [] => true
      end && noDoubleHyphen t
  | [] => true
  end.

(** A title of ASCII letters, digits and blanks that is not empty and
    has no blank at either end. *)
Definition plainTitle (TITLE : jsstring) : bool :=
  forallb (fun c => isAsciiAlnum c || isBlank c) TITLE &&
  match TITLE with
  | a :: _ => negb (isSpace a)
  | [] => false
  end &&
  match rev TITLE with
  | b :: _ => negb (isSpace b)
  | [] => false
  end.

(** The heading line [## TITLE], without an id of its own. *)
Definition bareHeading (TITLE : jsstring) : jsstring := lit "## " ++ TITLE.

End Slug.

(** ** The component [NotesPanel]: deleting a note *)

Module NotesList.
Import JS NotesPanel.

(** The state update of [deleteNote]: [notes] is the list of notes. *)
Definition deleteNote (notes : list Note) (id : jsstring) : list Note :=
  List.filter (fun note => negb (bool_decide (NotesPanel.id note = id)))
    notes.

(** The panel with the form filled in and shown again. *)
Definition withForm (p : Panel) (form : NewNote) : Panel :=
  {| notes := notes p; newNote := form; showNewNoteForm := true |}.

End NotesList.

(** ** The component [TableOfContents]: the list of bookmarks *)

Module TableOfContents.
Import JS.

(** An item of the bookmarks list: its [key] and the title it shows. *)
Record BookmarkItem := {
  key : jsstring;
  shown : jsstring
}.

(** [sections.find(s => s.id === bookmarkId)] *)
Definition findSection (sections : list ContentLoader.DocumentSection)
    (bookmarkId : jsstring) : option ContentLoader.DocumentSection :=
  List.find (fun s => bool_decide (ContentLoader.id s = bookmarkId)) sections.

(** The callback of [bookmarks.map]: the item of a bookmark, [None] for
    [null]. *)
Definition bookmarkItem (sections : list ContentLoader.DocumentSection)
    (bookmarkId : jsstring) : option BookmarkItem :=
  match findSection sections bookmarkId with
  | Some section =>
      Some {| key := bookmarkId; shown := ContentLoader.title section |}
  | None => None
  end.

(** The items of the bookmarks list, shown when there is a bookmark and
    the list is expanded; React renders nothing for [null]. *)
Definition bookmarkItems (sections : list ContentLoader.DocumentSection)
    (bookmarks : list jsstring) : list BookmarkItem :=
  omap (bookmarkItem sections) bookmarks.

(** The number in the heading [Bookmarks (n)]. *)
Definition bookmarkCount (bookmarks : list jsstring) : nat :=
  length bookmarks.

End TableOfContents.

(** ** Further vocabulary of the renderer and the search panel *)

Module Keys.
Import JS MarkdownRenderer.

(** The [key] of an element as React compares keys: as a text. *)
Definition keyOf (e : Element) : jsstring :=
  match e with
  | CodeBlock blockId _ _ => blockId
  | H1 key _ => natToString key
  | H2 key _ _ _ => natToString key
  | H3 key _ => natToString key
  | DefinitionItem key _ _ => natToString key
  | Li key _ => natToString key
  | Hr key => natToString key
  | Caption key _ => natToString key
  | P key _ => natToString key
  end.

(** The id of a code block. *)
Definition blockIdOf (e : Element) : option jsstring :=
  match e with
  | CodeBlock blockId _ _ => Some blockId
  | _ => None
  end.

(** The id of the [n]-th code block. *)
Definition codeId (n : nat) : jsstring := lit "code-" ++ natToString n.

(** The keys of the elements [es] are those of the first [n] code
    blocks and of lines before line [i]. *)
Definition keysBelow (n i : nat) (es : list Element) : Prop :=
  Forall (fun e => (exists k, (k < n)%nat /\ keyOf e = codeId k) \/
                   (exists k, (k < i)%nat /\ keyOf e = natToString k)) es.



End Keys.

Module Cursor.
Import JS RegExp SearchPanel.

(** The heading lines of the search panel. *)
Definition isHeader (l : jsstring) : bool :=
  match exec reHeader l with Some _ => true | None => false end.

(** The section a line behind the lines [before] belongs to: that of the
    last heading line among them, as the renderer shows it, or the
    introduction. *)
Definition sectionAt (before : list jsstring) : Cursor :=
  match last (List.filter isHeader before) with
  | Some l =>
      {| id := MarkdownRenderer.h2Id l; title := MarkdownRenderer.h2Title l |}
  | None => {| id := lit "intro"; title := lit "Introduction" |}
  end.

End Cursor.

Module Hits.
Import JS RegExp SearchPanel Snippet Cursor.

(** The lines with their indices, counted from [i]. *)
Fixpoint numberedFrom (i : nat) (lines : list jsstring)
    : list (nat * jsstring) :=
  match lines with
  | [] => []
  | l :: lines' => (i, l) :: numberedFrom (S i) lines'
  end.

(** A line that is searched and contains the query, letter case
    aside. *)
Definition isHit (q l : jsstring) : bool :=
  negb (isHeader l) && includes (toLowerCase q) (toLowerCase l).

(** The lines of a text that are searched and contain the query, with
    their indices, in the order of the text. *)
Definition hits (q : jsstring) (lines : list jsstring)
    : list (nat * jsstring) :=
  List.filter (fun hit => isHit q hit.2) (numberedFrom 0 lines).

(** [r] is the result for the line [hit.2] at index [hit.1] of [lines]:
    it has the 1-based number of the line, the snippet of the line and
    the section of the line. *)
Definition resultAt (q : jsstring) (lines : list jsstring)
    (hit : nat * jsstring) (r : SearchResult) : Prop :=
  resultFor q hit.2 hit.1 r /\
  sectionId r = id (sectionAt (take hit.1 lines)) /\
  sectionTitle r = title (sectionAt (take hit.1 lines)).

(** A query made of ordinary characters and dots: the queries whose
    pattern [patternOf] covers. *)
Definition coveredQuery (q : jsstring) : bool :=
  forallb (fun c => Ascii.eqb c "." || negb (isSyntaxChar c)) q.

End Hits.


(** * Properties *)

(** Unfolding the matcher on a literal of the source, leaving the tests
    on unknown characters in place. *)
Ltac ground_tests :=
  repeat match goal with
  | |- context [RegExp.isChar ?a ?b] =>
      let v := eval vm_compute in (RegExp.isChar a b) in
      lazymatch v with
      | true => change (RegExp.isChar a b) with true
      | false => change (RegExp.isChar a b) with false
      end
  | |- context [JS.isSpace ?b] =>
      let v := eval vm_compute in (JS.isSpace b) in
      lazymatch v with
      | true => change (JS.isSpace b) with true
      | false => change (JS.isSpace b) with false
      end
  | |- context [JS.dot ?b] =>
      let v := eval vm_compute in (JS.dot b) in
      lazymatch v with
      | true => change (JS.dot b) with true
      | false => change (JS.dot b) with false
      end
  end.

Ltac regex_simpl :=
  repeat (progress (cbn [RegExp.m RegExp.Seq RegExp.Str RegExp.Plus lit
                         list_ascii_of_string app negb andb orb
                         RegExp.advance];
                    ground_tests)).

(** A continuation that starts by reading an opening brace. *)
Ltac needs_brace :=
  let q := fresh in let s := fresh in let a := fresh in let E := fresh in
  intros q [|a s]; [done|];
  destruct (RegExp.isChar "{" a) eqn:E; [|done];
  apply Ascii.eqb_eq in E as <-; eauto.

(** ** The loops of the matcher *)

Module RegExpFacts.
Import JS RegExp.

Section Loops.
Context {R : Type}.
Implicit Types (p : ascii -> bool) (k : option ascii -> jsstring -> option R).
Implicit Types (u v s : jsstring) (prev : option ascii).

(** A lazy loop stops where the continuation succeeds. *)
Lemma repLazy_here p k prev s x :
  k prev s = Some x -> repLazy p k prev s = Some x.
Proof. intros E. destruct s; cbn; by rewrite E. Qed.

(** A lazy loop walks over a stretch [u] on which the continuation fails
    at every position. *)
Lemma repLazy_skip p k u v prev :
  Forall (fun a => p a = true) u ->
  (forall u1 a u2 q, u = u1 ++ a :: u2 -> k q (a :: u2 ++ v) = None) ->
  repLazy p k prev (u ++ v) = repLazy p k (advance prev u) v.
Proof.
  revert prev. induction u as [|a u IH]; intros prev Hp Hk; [done|].
  apply Forall_cons in Hp as [Ha Hu].
  cbn [app repLazy advance].
  rewrite (Hk [] a u prev eq_refl), Ha.
  apply IH; [done|].
  intros u1 b u2 q ->. by apply (Hk (a :: u1)).
Qed.

(** A greedy loop cannot get past a stretch that ends in a character
    outside the class when the continuation needs a first character [c0]
    that the stretch does not contain. *)
Lemma repGreedy_blocked p k c0 u b v prev :
  (forall q s, k q s <> None -> exists t, s = c0 :: t) ->
  c0 ∉ u ++ [b] -> p b = false ->
  repGreedy p k prev ((u ++ [b]) ++ v) = None.
Proof.
  intros Hk. revert prev.
  assert (Hfail : forall q a t, a <> c0 -> k q (a :: t) = None).
  { intros q a t Ha. destruct (k q (a :: t)) eqn:E; [|done].
    destruct (Hk q (a :: t)) as [t' Ht]; [by rewrite E|]. congruence. }
  induction u as [|a u IH]; intros prev Hc Hb; cbn [app repGreedy].
  - rewrite Hb. apply Hfail. set_solver.
  - rewrite IH by set_solver.
    destruct (p a); apply Hfail; set_solver.
Qed.

(** [p+] fails where [p*] does. *)
Lemma plus_blocked p k a t prev :
  repGreedy p k prev (a :: t) = None ->
  (if p a then repGreedy p k (Some a) t else None) = None.
Proof.
  cbn [repGreedy]. destruct (p a); [|done].
  by destruct (repGreedy p k (Some a) t).
Qed.

(** A greedy loop that runs up to a character outside the class, where
    the continuation succeeds. *)
Lemma repGreedy_stop p k u v prev x :
  Forall (fun a => p a = true) u ->
  match v with [] => True | b :: _ => p b = false end ->
  k (advance prev u) v = Some x ->
  repGreedy p k prev (u ++ v) = Some x.
Proof.
  revert prev. induction u as [|a u IH]; intros prev Hp Hv Hk.
  - cbn in *. destruct v as [|b v]; [done|]. cbn. by rewrite Hv.
  - apply Forall_cons in Hp as [Ha Hu]. cbn [app repGreedy].
    rewrite Ha. by rewrite (IH (Some a)).
Qed.

(** A greedy loop that reads to the end of the text and gives back the
    last character. *)
Lemma repGreedy_last p k u b prev x :
  Forall (fun a => p a = true) u ->
  (forall q, k q [] = None) ->
  k (advance prev u) [b] = Some x ->
  repGreedy p k prev (u ++ [b]) = Some x.
Proof.
  revert prev. induction u as [|a u IH]; intros prev Hp Hnil Hk.
  - cbn in *. rewrite Hnil. by destruct (p b).
  - apply Forall_cons in Hp as [Ha Hu]. cbn [app repGreedy].
    rewrite Ha. by rewrite (IH (Some a)).
Qed.

(** Where a loop succeeds, its continuation has succeeded further on. *)
Lemma repGreedy_success p k prev s x :
  repGreedy p k prev s = Some x ->
  exists prev' s', k prev' s' = Some x /\ (length s' <= length s)%nat.
Proof.
  revert prev. induction s as [|a s IH]; intros prev; cbn [repGreedy].
  - intros H. by exists prev, [].
  - destruct (p a); [|intros H; by exists prev, (a :: s)].
    destruct (repGreedy p k (Some a) s) eqn:E.
    + intros [= ->]. destruct (IH _ E) as (p' & s' & H & Hl).
      exists p', s'. split; [done|]. cbn. lia.
    + intros H. by exists prev, (a :: s).
Qed.

Lemma repLazy_success p k prev s x :
  repLazy p k prev s = Some x ->
  exists prev' s', k prev' s' = Some x /\ (length s' <= length s)%nat.
Proof.
  revert prev. induction s as [|a s IH]; intros prev; cbn [repLazy].
  - destruct (k prev []) eqn:E; [|done]. intros [= ->]. by exists prev, [].
  - destruct (k prev (a :: s)) eqn:E.
    + intros [= ->]. by exists prev, (a :: s).
    + destruct (p a); [|done]. intros H.
      destruct (IH _ H) as (p' & s' & H' & Hl).
      exists p', s'. split; [done|]. cbn. lia.
Qed.

End Loops.

(** Where the matcher succeeds, its continuation has succeeded on what
    is left of the text behind at least [minLen r] characters, with the
    captures of the groups outside [r] as they were. *)
Lemma m_success {R} r :
  forall prev s c (k : option ascii -> jsstring -> caps -> option R) x,
  m r prev s c k = Some x ->
  exists prev' s' c',
    k prev' s' c' = Some x /\
    (length s' + minLen r <= length s)%nat /\
    forall n, n ∉ groupsOf r -> c' !! n = c !! n.
Proof.
  induction r as [ |p|r1 IH1 r2 IH2|g p|r1 IH1|n r1 IH1|ml|ml];
    intros prev s c k x; cbn [m minLen groupsOf].
  - intros H. exists prev, s, c. split_and!; [done|lia|done].
  - destruct s as [|a t]; [done|]. destruct (p a); [|done].
    intros H. exists (Some a), t, c. split_and!; [done|cbn; lia|done].
  - intros H. destruct (IH1 _ _ _ _ _ H) as (p1 & s1 & c1 & H1 & L1 & G1).
    destruct (IH2 _ _ _ _ _ H1) as (p2 & s2 & c2 & H2 & L2 & G2).
    exists p2, s2, c2. split_and!; [done|lia|].
    intros n Hn. rewrite not_elem_of_app in Hn. destruct Hn.
    by rewrite G2, G1.
  - destruct g.
    + intros (p' & s' & H & L)%repGreedy_success.
      exists p', s', c. split_and!; [done|lia|done].
    + intros (p' & s' & H & L)%repLazy_success.
      exists p', s', c. split_and!; [done|lia|done].
  - destruct (m r1 prev s c k) eqn:E.
    + intros [= ->]. destruct (IH1 _ _ _ _ _ E) as (p1 & s1 & c1 & H1 & L1 & G1).
      exists p1, s1, c1. split_and!; [done|lia|done].
    + intros H. exists prev, s, c. split_and!; [done|lia|done].
  - intros H. destruct (IH1 _ _ _ _ _ H) as (p1 & s1 & c1 & H1 & L1 & G1).
    eexists p1, s1, _. split_and!; [exact H1|lia|].
    intros j Hj. apply not_elem_of_cons in Hj as [Hj1 Hj2].
    by rewrite lookup_insert_ne, G1.
  - destruct (match prev with None => true | Some a => _ end); [|done].
    intros H. exists prev, s, c. split_and!; [done|lia|done].
  - destruct (match s with [] => true | _ => _ end); [|done].
    intros H. exists prev, s, c. split_and!; [done|lia|done].
Qed.

Lemma m_cat_success {R} r1 r2 prev s c
    (k : option ascii -> jsstring -> caps -> option R) x :
  m (Cat r1 r2) prev s c k = Some x ->
  exists prev' s' c',
    m r2 prev' s' c' k = Some x /\
    (length s' + minLen r1 <= length s)%nat /\
    forall n, n ∉ groupsOf r1 -> c' !! n = c !! n.
Proof. cbn [m]. apply m_success. Qed.

(** The same for an expression that starts with a capture group: the
    group holds the text the match of its body has taken. *)
Lemma m_group_success {R} n r1 r2 prev s c
    (k : option ascii -> jsstring -> caps -> option R) x :
  m (Cat (Grp n r1) r2) prev s c k = Some x ->
  exists prev' s' c',
    m r2 prev' s' (<[n := take (length s - length s') s]> c') k = Some x /\
    (length s' + minLen r1 <= length s)%nat.
Proof.
  cbn [m]. intros H.
  destruct (m_success r1 _ _ _ _ _ H) as (p1 & s1 & c1 & H1 & L1 & _).
  by exists p1, s1, c1.
Qed.

Lemma execFrom_matchHere r prev s i mr :
  execFrom r prev s i = Some mr ->
  exists prev' s', matchHere r prev' s' = Some (after mr, groups mr).
Proof.
  revert prev i. induction s as [|a s IH]; intros prev i; cbn [execFrom].
  - destruct (matchHere r prev []) as [[s' c]|] eqn:E; [|done].
    intros [= <-]. by exists prev, [].
  - destruct (matchHere r prev (a :: s)) as [[s' c]|] eqn:E.
    + intros [= <-]. by exists prev, (a :: s).
    + apply IH.
Qed.

(** The search for the leftmost match walks over a stretch on which no
    match starts. *)
Lemma execFrom_skip r u v prev i :
  (forall u1 a u2 q, u = u1 ++ a :: u2 ->
     matchHere r q (a :: u2 ++ v) = None) ->
  execFrom r prev (u ++ v) i = execFrom r (advance prev u) v (i + length u).
Proof.
  revert prev i. induction u as [|a u IH]; intros prev i Hk.
  - cbn. by rewrite Nat.add_0_r.
  - cbn [app execFrom advance length].
    rewrite (Hk [] a u prev eq_refl), IH.
    + f_equal. lia.
    + intros u1 b u2 q ->. by apply (Hk (a :: u1)).
Qed.

Lemma execFrom_here r prev s i s' c :
  matchHere r prev s = Some (s', c) ->
  execFrom r prev s i =
    Some {| index := i; matched := take (length s - length s') s;
            groups := c; after := s' |}.
Proof. intros E. destruct s; cbn [execFrom]; by rewrite E. Qed.

Lemma take_app_sub {A} (u v : list A) :
  take (length (u ++ v) - length v) (u ++ v) = u.
Proof. rewrite length_app, Nat.add_sub. apply take_app_length. Qed.

Lemma isChar_false c a : a <> c -> isChar c a = false.
Proof. intros. unfold isChar. by apply Ascii.eqb_neq. Qed.

End RegExpFacts.

(** ** Heading lines with an explicit id *)

Module HeadingFacts.
Import JS RegExp RegExpFacts Heading.

Lemma validTitle_wf TITLE : validTitle TITLE = true -> wfTitle TITLE.
Proof.
  unfold validTitle. rewrite !andb_true_iff, !negb_true_iff.
  intros [[[Hd Hb] Hf] Hl]. split.
  - rewrite forallb_forall in Hd. apply Forall_forall.
    intros a Ha. apply Hd. by apply list_elem_of_In.
  - intros Hin. apply list_elem_of_In in Hin.
    assert (existsb (Ascii.eqb "{") TITLE = true) as E; [|congruence].
    apply existsb_exists. exists "{"%char. split; [done|apply Ascii.eqb_refl].
  - destruct TITLE as [|a T']; [done|]. exists a, T'.
    by rewrite negb_true_iff in Hf.
  - destruct (rev TITLE) as [|b T'] eqn:E; [done|].
    exists (rev T'), b. rewrite negb_true_iff in Hl. split; [|done].
    by rewrite <- (rev_involutive TITLE), E.
Qed.

Lemma validId_wf ID : validId ID = true -> wfId ID.
Proof.
  unfold validId. rewrite !andb_true_iff, !negb_true_iff.
  intros [[Hn Hd] Hb]. split.
  - by destruct ID.
  - rewrite forallb_forall in Hd. apply Forall_forall.
    intros a Ha. apply Hd. by apply list_elem_of_In.
  - intros Hin. apply list_elem_of_In in Hin.
    assert (existsb (Ascii.eqb "}") ID = true) as E; [|congruence].
    apply existsb_exists. exists "}"%char. split; [done|apply Ascii.eqb_refl].
Qed.

(** Every non-empty suffix of a well-formed title ends in a character
    that is not white space and holds no opening brace. *)
Lemma wfTitle_suffix TITLE u1 a u2 :
  wfTitle TITLE -> TITLE = u1 ++ a :: u2 ->
  exists w b, a :: u2 = w ++ [b] /\ isSpace b = false /\ "{"%char ∉ w ++ [b].
Proof.
  intros [_ Hb _ (T' & b & -> & Hsp)] E.
  destruct (exists_last (l := a :: u2)) as (w & b' & Ew); [done|].
  rewrite Ew, app_assoc in E. apply app_inj_tail in E as [-> ->].
  exists w, b'. split_and!; [done..|]. set_solver.
Qed.

(** White space followed by an opening brace is not found inside a
    well-formed title. *)
Lemma title_suffix_blocked {R} (k : option ascii -> jsstring -> option R)
    TITLE u1 a u2 v q :
  wfTitle TITLE -> TITLE = u1 ++ a :: u2 ->
  (forall q s, k q s <> None -> exists t, s = "{"%char :: t) ->
  repGreedy isSpace k q (a :: u2 ++ v) = None.
Proof.
  intros HT E Hk.
  destruct (wfTitle_suffix _ _ _ _ HT E) as (w & b & Ew & Hb & Hbr).
  change (a :: u2 ++ v) with ((a :: u2) ++ v). rewrite Ew.
  by apply (repGreedy_blocked _ _ "{"%char).
Qed.

(** *** The renderer's pattern *)

Lemma matchHere_reH2 TITLE ID :
  wfTitle TITLE -> wfId ID ->
  matchHere MarkdownRenderer.reH2 None (headingLine TITLE ID) =
    Some ([], <[2%nat := ID]> (<[1%nat := TITLE]> ∅)).
Proof.
  intros HT HI.
  destruct (title_first _ HT) as (t0 & T' & -> & Ht0).
  pose proof (title_dots _ HT) as [Hd0 HdT]%Forall_cons.
  destruct HI as [Hne HdI Hbr]. destruct ID as [|i0 I']; [done|].
  apply Forall_cons in HdI as [Hdi0 HdI].
  unfold matchHere, headingLine, MarkdownRenderer.reH2. regex_simpl.
  rewrite Hd0, repLazy_skip; [|done|].
  - apply repLazy_here. regex_simpl. cbn [repGreedy]. regex_simpl.
    rewrite Hdi0, repLazy_skip; [|done|].
    + erewrite repLazy_here by (regex_simpl; reflexivity).
      repeat f_equal.
      * apply (take_app_sub (i0 :: I')).
      * apply (take_app_sub (t0 :: T')).
    + intros u1 a u2 _ ->. rewrite isChar_false; [done|].
      intros ->. apply Hbr. set_solver.
  - intros u1 a u2 q E.
    rewrite (plus_blocked _ _ _ _ q); [done|].
    eapply (title_suffix_blocked _ _ (t0 :: u1)); [done|by rewrite E|].
    needs_brace.
Qed.

Lemma h2_headingLine TITLE ID :
  wfTitle TITLE -> wfId ID ->
  MarkdownRenderer.h2Title (headingLine TITLE ID) = TITLE /\
  MarkdownRenderer.h2Id (headingLine TITLE ID) = ID.
Proof.
  intros HT HI. unfold MarkdownRenderer.h2Id, MarkdownRenderer.h2Title, exec.
  erewrite execFrom_here by (by apply matchHere_reH2).
  cbn [mbind option_bind groups].
  rewrite lookup_insert_ne, !lookup_insert_eq by done.
  destruct (title_first _ HT) as (t0 & T' & -> & _).
  destruct HI as [Hne _ _]. by destruct ID.
Qed.

(** *** The extractor's patterns *)

Lemma trimStart_id a s : isSpace a = false -> trimStart (a :: s) = a :: s.
Proof. intros E. cbn. by rewrite E. Qed.

Lemma trimEnd_id s b : isSpace b = false -> trimEnd (s ++ [b]) = s ++ [b].
Proof.
  intros E. unfold trimEnd. rewrite rev_app_distr. cbn [rev app].
  rewrite trimStart_id by done.
  change (b :: rev s) with ([b] ++ rev s).
  by rewrite rev_app_distr, rev_involutive.
Qed.

Lemma trim_id a s b :
  isSpace a = false -> isSpace b = false ->
  trim (a :: s ++ [b]) = a :: s ++ [b].
Proof.
  intros Ha Hb. unfold trim. rewrite trimStart_id by done.
  by apply (trimEnd_id (a :: s)).
Qed.

Lemma trim_headingLine TITLE ID :
  trim (headingLine TITLE ID) = headingLine TITLE ID.
Proof.
  assert (headingLine TITLE ID =
          "#"%char :: ("#"%char :: " "%char :: TITLE ++ lit " {#" ++ ID) ++
          ["}"%char]) as ->.
  { unfold headingLine. cbn [lit list_ascii_of_string app].
    do 3 f_equal. by rewrite <- !app_assoc. }
  by apply trim_id.
Qed.

(** [/^#+/] finds the two hashes. *)
Lemma reHashes_headingLine TITLE ID :
  exec ContentLoader.reHashes (headingLine TITLE ID) =
    Some {| index := 0; matched := lit "##"; groups := ∅;
            after := " "%char :: TITLE ++ lit " {#" ++ ID ++ lit "}" |}.
Proof.
  unfold exec.
  erewrite execFrom_here;
    [|unfold matchHere, ContentLoader.reHashes, headingLine;
      regex_simpl; cbn [repGreedy]; regex_simpl; reflexivity].
  do 2 f_equal. apply (take_app_sub (lit "##")).
Qed.

(** [/^#+\s*/] removes the hashes and the space behind them. *)
Lemma reHashesSpace_headingLine TITLE ID :
  wfTitle TITLE ->
  replaceFirst ContentLoader.reHashesSpace [] (headingLine TITLE ID) =
    TITLE ++ lit " {#" ++ ID ++ lit "}".
Proof.
  intros HT. destruct (title_first _ HT) as (t0 & T' & -> & Ht0).
  unfold replaceFirst, exec.
  erewrite execFrom_here;
    [|unfold matchHere, ContentLoader.reHashesSpace, headingLine;
      regex_simpl; cbn [repGreedy]; regex_simpl; rewrite Ht0; reflexivity].
  done.
Qed.

(** [/\s*\{#.*\}$/] removes the id suffix. *)
Lemma reIdSuffix_title TITLE ID :
  wfTitle TITLE -> wfId ID ->
  replaceFirst ContentLoader.reIdSuffix []
    (TITLE ++ lit " {#" ++ ID ++ lit "}") = TITLE.
Proof.
  intros HT HI. unfold replaceFirst, exec.
  rewrite execFrom_skip.
  - erewrite execFrom_here.
    + cbn [index after Nat.add]. by rewrite take_app_length, !app_nil_r.
    + unfold matchHere, ContentLoader.reIdSuffix.
      regex_simpl. cbn [repGreedy]. regex_simpl.
      erewrite repGreedy_last; [done|apply HI|done|].
      regex_simpl. reflexivity.
  - intros u1 a u2 q E. unfold matchHere, ContentLoader.reIdSuffix.
    regex_simpl. eapply title_suffix_blocked; [done..|]. needs_brace.
Qed.

(** [/\{#([^}]+)\}/] finds the id. *)
Lemma reIdMatch_headingLine TITLE ID :
  wfTitle TITLE -> wfId ID ->
  exists mr, exec ContentLoader.reIdMatch (headingLine TITLE ID) = Some mr /\
             groups mr !! 1%nat = Some ID.
Proof.
  intros HT HI. unfold exec.
  assert (headingLine TITLE ID =
          (lit "## " ++ TITLE ++ lit " ") ++ lit "{#" ++ ID ++ lit "}") as ->.
  { unfold headingLine. by rewrite <- !app_assoc. }
  rewrite execFrom_skip.
  - destruct HI as [Hne HdI Hbr]. destruct ID as [|i0 I']; [done|].
    erewrite execFrom_here.
    + eexists. split; [done|]. cbn [groups]. apply lookup_insert_eq.
    + unfold matchHere, ContentLoader.reIdMatch. regex_simpl.
      rewrite isChar_false by (intros ->; set_solver). cbn [negb].
      erewrite repGreedy_stop; [ | | done | regex_simpl; reflexivity ].
      * repeat f_equal. apply (take_app_sub (i0 :: I')).
      * apply Forall_forall. intros a Ha. rewrite isChar_false; [done|].
        intros ->. set_solver.
  - intros u1 a u2 q E. unfold matchHere, ContentLoader.reIdMatch.
    regex_simpl. rewrite isChar_false; [done|]. intros ->.
    assert ("{"%char ∈ lit "## " ++ TITLE ++ lit " ") as Hin
      by (rewrite E; set_solver).
    pose proof (title_no_brace _ HT).
    rewrite !elem_of_app in Hin. destruct Hin as [Hin|[Hin|Hin]]; [|done|];
      cbn in Hin; set_solver.
Qed.

Lemma sectionOfLine_headingLine TITLE ID :
  wfTitle TITLE -> wfId ID ->
  ContentLoader.sectionOfLine (headingLine TITLE ID) =
    Some {| ContentLoader.id := ID; ContentLoader.title := TITLE;
            ContentLoader.level := 2 |}.
Proof.
  intros HT HI. unfold ContentLoader.sectionOfLine.
  rewrite trim_headingLine.
  change (startsWith (lit "#") (headingLine TITLE ID)) with true. cbn match.
  rewrite reHashes_headingLine, reHashesSpace_headingLine by done.
  rewrite reIdSuffix_title by done.
  by destruct (reIdMatch_headingLine TITLE ID HT HI) as (mr & -> & ->).
Qed.

Lemma elementOfLine_headingLine TITLE ID bookmarks i :
  MarkdownRenderer.elementOfLine bookmarks i (headingLine TITLE ID) =
    Some (MarkdownRenderer.H2 i
            (MarkdownRenderer.h2Id (headingLine TITLE ID))
            (MarkdownRenderer.h2Title (headingLine TITLE ID))
            (bool_decide
               (MarkdownRenderer.h2Id (headingLine TITLE ID) ∈ bookmarks))).
Proof. done. Qed.

(** C6, amended.  For a heading line [## TITLE {#ID}] whose title is not
    empty, has no line terminator and no opening brace and neither starts
    nor ends with white space, and whose id is not empty and has no line
    terminator and no closing brace, the section extractor returns the
    section with id [ID], title [TITLE] and level 2, and the renderer
    derives the same id and title for its level-2 heading element. *)
Theorem explicit_id_round_trip TITLE ID :
  validTitle TITLE = true -> validId ID = true -> agreeOn TITLE ID.
Proof.
  intros HT%validTitle_wf HI%validId_wf.
  destruct (h2_headingLine TITLE ID HT HI) as [Ht Hi].
  split_and!; [by apply sectionOfLine_headingLine|done..|].
  intros. by rewrite elementOfLine_headingLine, Hi, Ht.
Qed.

(** The line [## Title {#custom-id}] of the specification. *)
Lemma explicit_id_round_trip_witness :
  agreeOn (lit "Title") (lit "custom-id").
Proof. apply explicit_id_round_trip; reflexivity. Defined.

(** C6 as stated fails.  The id [a}b] is not empty and the titles [T]
    and [ A] hold no brace, yet on [## T {#a}b}] the extractor stops the
    id at the first closing brace while the renderer reads up to the
    last, and on [##  A {#x}] the extractor drops the white space in
    front of the title while the renderer keeps it. *)
Lemma explicit_id_disagreement :
  (noBraces (lit "T") = true /\ truthy (lit "a}b") = true /\
   ContentLoader.sectionOfLine (headingLine (lit "T") (lit "a}b")) =
     Some {| ContentLoader.id := lit "a"; ContentLoader.title := lit "T";
             ContentLoader.level := 2 |} /\
   MarkdownRenderer.h2Id (headingLine (lit "T") (lit "a}b")) = lit "a}b" /\
   ~ agreeOn (lit "T") (lit "a}b")) /\
  (noBraces (lit " A") = true /\ truthy (lit "x") = true /\
   ContentLoader.sectionOfLine (headingLine (lit " A") (lit "x")) =
     Some {| ContentLoader.id := lit "x"; ContentLoader.title := lit "A";
             ContentLoader.level := 2 |} /\
   MarkdownRenderer.h2Title (headingLine (lit " A") (lit "x")) = lit " A" /\
   ~ agreeOn (lit " A") (lit "x")).
Proof.
  split; split_and!; try by vm_compute.
  - intros [H _]. vm_compute in H. discriminate.
  - intros [H _]. vm_compute in H. discriminate.
Qed.

(** The further conditions on the title and the id cannot be dropped: an
    empty title, a title that ends with white space, and a carriage
    return in the title or in the id each break the agreement. *)
Lemma explicit_id_conditions_needed :
  ~ agreeOn [] (lit "x") /\
  ~ agreeOn (lit "A ") (lit "x") /\
  ~ agreeOn (lit "A" ++ [CR] ++ lit "B") (lit "x") /\
  ~ agreeOn (lit "A") (lit "x" ++ [CR] ++ lit "y").
Proof.
  split_and!; intros (H1 & H2 & H3 & _); vm_compute in H1, H2, H3;
    first [discriminate H1 | discriminate H2 | discriminate H3].
Qed.

End HeadingFacts.

(** ** The search matcher *)

Module SnippetFacts.
Import JS RegExp RegExpFacts SearchPanel Snippet.

Lemma plainQueryb_spec q : plainQueryb q = true -> plainQuery q.
Proof.
  unfold plainQueryb, plainQuery. rewrite forallb_forall, Forall_forall.
  intros H c Hc. specialize (H c). rewrite negb_true_iff in H.
  apply H. by apply list_elem_of_In.
Qed.

(** *** [indexOf] *)

Lemma indexOfFrom_first q s i :
  includes q s = true ->
  exists n : nat, indexOfFrom q s i = i + Z.of_nat n /\ firstOccurrence q s n.
Proof.
  revert i. induction s as [|a s IH]; intros i; cbn [includes indexOfFrom].
  - rewrite orb_false_r. intros H. rewrite H. exists 0%nat.
    split; [lia|]. split; [exact H|lia].
  - destruct (startsWith q (a :: s)) eqn:E.
    + intros _. exists 0%nat. split; [lia|]. split; [exact E|lia].
    + cbn [orb]. intros H. destruct (IH (i + 1) H) as (n & -> & Hn & Hlt).
      exists (S n). split; [lia|]. split; [done|].
      intros [|j] ?; [done|]. apply Hlt. lia.
Qed.

Lemma indexOf_first q s :
  includes q s = true ->
  exists n : nat, indexOf q s = Z.of_nat n /\ firstOccurrence q s n.
Proof.
  intros H. destruct (indexOfFrom_first q s 0 H) as (n & E & Hn).
  exists n. by rewrite <- (Z.add_0_l (Z.of_nat n)).
Qed.

Lemma startsWith_length q s :
  startsWith q s = true -> (length q <= length s)%nat.
Proof.
  revert s. induction q as [|a q IH]; intros [|b s]; cbn; try done; try lia.
  intros [_ H]%andb_prop. apply IH in H. lia.
Qed.

Lemma occursHere_length q s :
  occursHere q s = true -> (length q <= length s)%nat.
Proof.
  intros H%startsWith_length. unfold toLowerCase in H.
  by rewrite !length_map in H.
Qed.

Lemma firstOccurrence_bound q s n :
  q <> [] -> firstOccurrence q s n -> (n + length q <= length s)%nat.
Proof.
  intros Hq [H _]. apply startsWith_length in H. rewrite length_drop in H.
  destruct q; [done|]. cbn in *. lia.
Qed.

(** *** The window *)

(** The window of the source is the window of the specification. *)
Lemma window_spec q line n :
  q <> [] ->
  indexOf (toLowerCase q) (toLowerCase line) = Z.of_nat n ->
  firstOccurrence (toLowerCase q) (toLowerCase line) n ->
  window q line = windowAround line (length q) n.
Proof.
  intros Hq E Hn. unfold window, windowAround. rewrite E.
  apply firstOccurrence_bound in Hn; [|by destruct q].
  unfold toLowerCase in Hn. rewrite !length_map in Hn.
  unfold slice.
  replace (Z.max 0 (Z.of_nat n - 30)) with (Z.of_nat (n - 30)) by lia.
  replace (Z.min (Z.of_nat (length line))
                 (Z.of_nat n + Z.of_nat (length q) + 30))
    with (Z.of_nat (Nat.min (length line) (n + length q + 30))) by lia.
  set (start := (n - 30)%nat). set (stop := Nat.min _ _).
  assert (start <= stop)%nat by lia.
  assert (stop <= length line)%nat by lia.
  destruct (Z.ltb_spec (Z.of_nat start) 0); [lia|].
  destruct (Z.ltb_spec (Z.of_nat stop) 0); [lia|].
  rewrite !Z.min_l by lia.
  replace (Z.to_nat (Z.of_nat stop - Z.of_nat start))
    with (stop - start)%nat by lia.
  rewrite Nat2Z.id.
  replace (0 <? Z.of_nat start) with (0 <? start)%nat
    by (destruct (Nat.ltb_spec 0 start), (Z.ltb_spec 0 (Z.of_nat start)); lia).
  replace (Z.of_nat stop <? Z.of_nat (length line))
    with (stop <? length line)%nat
    by (destruct (Nat.ltb_spec stop (length line)),
                 (Z.ltb_spec (Z.of_nat stop) (Z.of_nat (length line))); lia).
  destruct (0 <? start)%nat, (stop <? length line)%nat; cbn [app];
    by rewrite ?app_nil_r, <- ?app_assoc.
Qed.

(** *** The pattern of a plain query *)

Lemma occursHere_cons c q a s :
  occursHere (c :: q) (a :: s) = sameLetter c a && occursHere q s.
Proof. unfold occursHere, sameLetter. cbn. by rewrite Ascii.eqb_sym. Qed.

(** The pattern of a plain query matches exactly where the query occurs,
    letter case aside, and takes as many characters as the query has. *)
Lemma patternOf_plain q :
  plainQuery q ->
  exists r, patternOf q = Some r /\
    forall R prev s c (k : option ascii -> jsstring -> caps -> option R),
      m r prev s c k =
        if occursHere q s
        then k (advance prev (take (length q) s)) (drop (length q) s) c
        else None.
Proof.
  induction 1 as [|c q Hc Hq (r & Er & IH)].
  - exists Eps. split; [done|]. intros. by destruct s.
  - cbn [patternOf]. rewrite Er, Hc.
    destruct (Ascii.eqb c ".") eqn:Edot.
    { by apply Ascii.eqb_eq in Edot as ->. }
    eexists. split; [done|]. intros R prev [|a s] cp k; [done|].
    rewrite occursHere_cons. cbn [m length take drop advance].
    destruct (sameLetter c a); [|done]. apply IH.
Qed.

Lemma queryRegExp_plain q :
  plainQuery q ->
  exists regex, queryRegExp q = Some regex /\
    forall prev s,
      matchHere regex prev s =
        if occursHere q s
        then Some (drop (length q) s, {[ 1%nat := take (length q) s ]})
        else None.
Proof.
  intros (r & Er & Hr)%patternOf_plain. unfold queryRegExp. rewrite Er.
  eexists. split; [done|]. intros prev s. unfold matchHere. cbn [m].
  rewrite Hr. destruct (occursHere q s) eqn:E; [|done].
  apply occursHere_length in E. rewrite length_drop.
  by replace (length s - (length s - length q))%nat with (length q) by lia.
Qed.

(** *** Highlighting *)

Lemma replaceAllFrom_skip r repl n s prev :
  (n <= length s)%nat ->
  replaceAllFrom r repl n prev s =
    replaceAllFrom r repl 0 (advance prev (take n s)) (drop n s).
Proof.
  revert s prev. induction n as [|n IH]; intros s prev Hn.
  - by rewrite take_0, drop_0.
  - destruct s as [|a s]; [cbn in Hn; lia|].
    cbn [replaceAllFrom take drop advance]. apply IH. cbn in Hn. lia.
Qed.

Lemma highlight_marked q regex :
  q <> [] ->
  (forall prev s,
      matchHere regex prev s =
        if occursHere q s
        then Some (drop (length q) s, {[ 1%nat := take (length q) s ]})
        else None) ->
  forall s, Marked q s (highlight regex s).
Proof.
  intros Hq Hm s. unfold highlight, replaceAll. generalize (@None ascii).
  induction s as [s IH] using (induction_ltof1 _ (@length ascii)).
  unfold ltof in IH. intros prev.
  destruct s as [|a t].
  - cbn [replaceAllFrom]. rewrite Hm.
    destruct (occursHere q []) eqn:E; [|constructor].
    apply occursHere_length in E. destruct q; [done|cbn in E; lia].
  - cbn [replaceAllFrom]. rewrite Hm.
    destruct (occursHere q (a :: t)) eqn:E.
    + pose proof (occursHere_length _ _ E) as Hlen.
      rewrite length_drop.
      replace (length (a :: t) - (length (a :: t) - length q))%nat
        with (length q) by lia.
      rewrite lookup_singleton_eq. cbn [default].
      destruct (length q) as [|n] eqn:En; [by destruct q|].
      rewrite replaceAllFrom_skip by (cbn in Hlen; lia).
      rewrite <- En, <- !app_assoc. apply Marked_hit; [done|].
      rewrite En. cbn [drop]. apply IH. rewrite length_drop. cbn. lia.
    + apply Marked_miss; [done|]. apply IH. cbn. lia.
Qed.

(** The snippet of a plain query. *)
Lemma snippetOf_plain q line :
  q <> [] -> plainQuery q ->
  includes (toLowerCase q) (toLowerCase line) = true ->
  exists s, snippetOf markPattern q line = Some s /\ snippetSpec q line s.
Proof.
  intros Hq Hp Hin.
  destruct (queryRegExp_plain q Hp) as (regex & Er & Hm).
  destruct (indexOf_first _ _ Hin) as (n & En & Hn).
  unfold snippetOf, markPattern. rewrite Er.
  cbn [fmap option_fmap option_map mbind option_bind].
  eexists. split; [done|]. exists n. split; [done|].
  rewrite (window_spec q line n) by (done || by destruct q).
  by apply highlight_marked.
Qed.

End SnippetFacts.

Module SearchFacts.
Import JS RegExp SearchPanel Snippet SnippetFacts.

Section AnyMarker.
Context (mark : jsstring -> option (jsstring -> jsstring)).

(** A line that does not contain the query leaves the results alone. *)
Lemma visit_no_occurrence q results cur index line :
  includes (toLowerCase q) (toLowerCase line) = false ->
  exists cur', visit mark q (results, cur) index line = Some (results, cur').
Proof.
  intros H. unfold visit. destruct (exec reHeader line); [by eexists|].
  rewrite H. by eexists.
Qed.

Lemma forEach_no_occurrence q results cur index lines :
  occursNowhere q lines = true ->
  exists cur',
    forEach mark q (results, cur) index lines = Some (results, cur').
Proof.
  revert cur index. induction lines as [|line lines IH]; intros cur index H.
  - by eexists.
  - cbn in H. apply andb_prop in H as [H1%negb_true_iff H2].
    destruct (visit_no_occurrence q results cur index line H1) as [cur' E].
    cbn [forEach]. rewrite E. cbn [mbind option_bind]. by apply IH.
Qed.

(** When the constructor accepts the query every line can be visited. *)
Lemma visit_accepted q st index line :
  is_Some (mark q) -> is_Some (visit mark q st index line).
Proof.
  intros [f Hf]. destruct st as [results cur]. unfold visit.
  destruct (exec reHeader line); [done|].
  destruct (includes _ _); [|done].
  unfold snippetOf. by rewrite Hf.
Qed.

Lemma forEach_accepted q st index lines :
  is_Some (mark q) -> is_Some (forEach mark q st index lines).
Proof.
  intros Hp. revert st index.
  induction lines as [|line lines IH]; intros st index; [done|].
  cbn [forEach]. destruct (visit_accepted q st index line Hp) as [st' ->].
  apply IH.
Qed.

Lemma searchResults_length content q rs :
  searchResults mark content q = Some rs -> (length rs <= 20)%nat.
Proof.
  unfold searchResults. destruct (negb _).
  - intros [= <-]. cbn. lia.
  - destruct (forEach _ _ _ _ _) as [[results cur]|]; [|done].
    intros [= <-]. rewrite length_take. lia.
Qed.

(** A heading line is never searched: it moves the current section to
    the heading's title and id. *)
Lemma visit_header q results cur index line mr :
  exec reHeader line = Some mr ->
  visit mark q (results, cur) index line =
    Some (results,
          {| title := default [] (groups mr !! 1%nat);
             id := MarkdownRenderer.captureOr (groups mr !! 2%nat)
                     (MarkdownRenderer.slugOfTitle
                        (default [] (groups mr !! 1%nat))) |}).
Proof. intros E. unfold visit. by rewrite E. Qed.

(** Every result was recorded for a line of the text that is no heading
    line and contains the query, and carries its 1-based number. *)
Lemma forEach_sound q lines :
  forall results cur index results' cur',
  forEach mark q (results, cur) index lines = Some (results', cur') ->
  forall r, r ∈ results' ->
    r ∈ results \/
    exists i l,
      lines !! i = Some l /\ line r = (index + i + 1)%nat /\
      exec reHeader l = None /\
      includes (toLowerCase q) (toLowerCase l) = true /\
      snippetOf mark q l = Some (snippet r).
Proof.
  induction lines as [|l lines IH]; intros results cur index results' cur'.
  - intros [= <- <-] r Hr. by left.
  - cbn [forEach].
    destruct (visit mark q (results, cur) index l) as [[rs1 c1]|] eqn:Ev;
      [|done].
    cbn [mbind option_bind]. intros E r Hr.
    destruct (IH _ _ _ _ _ E r Hr) as [H1|(i & l' & Hl & Hn & H)].
    + unfold visit in Ev. destruct (exec reHeader l) eqn:Eh.
      { injection Ev as <- <-. by left. }
      destruct (includes _ _) eqn:Ei; [|injection Ev as <- <-; by left].
      destruct (snippetOf mark q l) as [s|] eqn:Es; [|done].
      cbn in Ev. injection Ev as <- <-.
      apply elem_of_app in H1 as [H1|H1]; [by left|].
      apply list_elem_of_singleton in H1 as ->. right.
      exists 0%nat, l. cbn. split_and!; try done. lia.
    + right. exists (S i), l'. destruct H as (? & ? & ?).
      split_and!; try done. lia.
Qed.

(** The results only grow, and every line that is searched and contains
    the query has its result among them. *)
Lemma forEach_complete q lines :
  forall results cur index results' cur',
  forEach mark q (results, cur) index lines = Some (results', cur') ->
  (exists more, results' = results ++ more) /\
  forall i l,
    lines !! i = Some l -> exec reHeader l = None ->
    includes (toLowerCase q) (toLowerCase l) = true ->
    exists r, r ∈ results' /\ line r = (index + i + 1)%nat /\
              snippetOf mark q l = Some (snippet r).
Proof.
  induction lines as [|l0 lines IH]; intros results cur index results' cur'.
  - intros [= <- <-]. split; [exists []; by rewrite app_nil_r|done].
  - cbn [forEach].
    destruct (visit mark q (results, cur) index l0) as [[rs1 c1]|] eqn:Ev;
      [|done].
    cbn [mbind option_bind]. intros E.
    destruct (IH _ _ _ _ _ E) as [[more ->] Hall].
    unfold visit in Ev. split.
    + destruct (exec reHeader l0); [injection Ev as <- <-; by eexists|].
      destruct (includes _ _); [|injection Ev as <- <-; by eexists].
      destruct (snippetOf mark q l0); [|done].
      cbn in Ev. injection Ev as <- <-.
      rewrite <- app_assoc. by eexists.
    + intros [|i] l Hl Hh Hi.
      * injection Hl as ->. rewrite Hh, Hi in Ev.
        destruct (snippetOf mark q l) as [s|]; [|done].
        cbn in Ev. injection Ev as <- <-.
        exists {| sectionId := id cur; sectionTitle := title cur;
                  snippet := s; line := (index + 1)%nat |}.
        split; [|split; [cbn; lia|done]].
        rewrite !elem_of_app, list_elem_of_singleton. eauto.
      * destruct (Hall i l Hl Hh Hi) as (r & Hr & Hn & Hs).
        exists r. split_and!; [done| lia |done].
Qed.

(** C5.  Whatever the regular expression of the query does: searching
    with the empty query returns no result; searching with a query that
    occurs in no line of the text, letter case aside, returns no result;
    a sequence returned for any query has at most 20 results; and one is
    returned for every query the constructor accepts. *)
Theorem search_results_bounded content :
  searchResults mark content [] = Some [] /\
  (forall q, occursNowhere q (split LF content) = true ->
             searchResults mark content q = Some []) /\
  (forall q rs, searchResults mark content q = Some rs ->
                (length rs <= 20)%nat) /\
  (forall q, is_Some (mark q) ->
             exists rs, searchResults mark content q = Some rs /\
                        (length rs <= 20)%nat).
Proof.
  split_and!.
  - done.
  - intros q H. unfold searchResults. destruct (negb _); [done|].
    by edestruct forEach_no_occurrence as [cur' ->].
  - apply searchResults_length.
  - intros q Hq.
    assert (is_Some (searchResults mark content q)) as [rs E].
    { unfold searchResults. destruct (negb _); [done|].
      by edestruct forEach_accepted as [[results cur] ->]. }
    exists rs. split; [done|]. by eapply searchResults_length.
Qed.

End AnyMarker.

(** The query [zebra] occurs nowhere in the document of the scenarios;
    the query [a] occurs in each of 25 lines. *)
Lemma search_results_bounded_witness :
  searchResults markPattern sampleDocument (lit "zebra") = Some [] /\
  exists rs,
    searchResults markPattern (concat (replicate 25 (lit "ab" ++ [LF])))
      (lit "a") = Some rs /\
    (length rs <= 20)%nat.
Proof.
  split.
  - apply (search_results_bounded markPattern sampleDocument). reflexivity.
  - apply (search_results_bounded markPattern
             (concat (replicate 25 (lit "ab" ++ [LF])))).
    eexists. reflexivity.
Defined.

Lemma markPattern_plain q : plainQuery q -> is_Some (markPattern q).
Proof.
  intros (r & E & _)%patternOf_plain. unfold markPattern, queryRegExp.
  by rewrite E.
Qed.

(** C4 as stated fails on a heading line, on a query of white space and
    in its condition for the ellipsis.  [## Hello world] contains the
    query [hello], yet visiting it records nothing: it only moves the
    current section.  The line [a b] contains the query of one space,
    which is not empty, yet the search returns no result for it.  For the
    line [Hello world] and the query [hello] both ends of the window are
    clamped to the line (30 before the occurrence lies before the line,
    30 behind it lies behind the line), yet the snippet has no ellipsis:
    the ellipsis marks text that was cut off, not a clamped bound. *)
Lemma heading_line_records_nothing :
  (truthy (lit "hello") = true /\
   includes (toLowerCase (lit "hello"))
            (toLowerCase (lit "## Hello world")) = true /\
   (forall results cur index,
      visit markPattern (lit "hello") (results, cur) index
        (lit "## Hello world") =
        Some (results,
              {| id := lit "hello-world"; title := lit "Hello world" |})) /\
   ~ recordsSnippet (lit "hello") (lit "## Hello world")) /\
  (truthy (lit " ") = true /\
   includes (toLowerCase (lit " ")) (toLowerCase (lit "a b")) = true /\
   searchResults markPattern (lit "a b") (lit " ") = Some []) /\
  (indexOf (toLowerCase (lit "hello")) (toLowerCase (lit "Hello world"))
     - 30 < 0 /\
   Z.of_nat (length (lit "Hello world")) <
     indexOf (toLowerCase (lit "hello")) (toLowerCase (lit "Hello world"))
     + Z.of_nat (length (lit "hello")) + 30 /\
   searchResults markPattern (lit "Hello world") (lit "hello") =
     Some [{| sectionId := lit "intro"; sectionTitle := lit "Introduction";
              snippet := lit "<mark>Hello</mark> world"; line := 1 |}]).
Proof.
  split; [|split]; split_and!; try done.
  intros H. destruct (H [] {| id := []; title := [] |} 0%nat) as (s & _ & E).
  vm_compute in E. discriminate.
Qed.

(** A query is read as a pattern: with the query [..] the line [a..] is
    marked at [a.], not at the occurrence of the query, and the query [(]
    has no pattern. *)
Lemma pattern_query_marks_elsewhere :
  snippetOf markPattern (lit "..") (lit "a..") =
    Some (lit "<mark>a.</mark>.") /\
  ~ snippetSpec (lit "..") (lit "a..") (lit "<mark>a.</mark>.") /\
  snippetOf markPattern (lit "(") (lit "f(x)") = None.
Proof.
  split_and!; [done| |done].
  intros (i & [Hi Hlt] & Hm).
  assert (i = 1%nat) as ->.
  { destruct i as [|[|i]]; [by vm_compute in Hi|done|].
    specialize (Hlt 1%nat). vm_compute in Hlt.
    assert (1 < S (S i))%nat as Hj by lia. by specialize (Hlt Hj). }
  vm_compute in Hm. inversion Hm as [|s out Ho _ E1 E2|].
  vm_compute in Ho. discriminate.
Qed.

(** C7.  In the document of the scenario the query [hello] has exactly
    one result: section [intro], line 4, the snippet with [Hello]
    highlighted.  The two heading lines record nothing and move the
    current section. *)
Theorem search_hello_in_sample :
  searchResults markPattern sampleDocument (lit "hello") =
    Some [{| sectionId := lit "intro"; sectionTitle := lit "Intro";
             snippet := lit "<mark>Hello</mark> world"; line := 4 |}] /\
  (forall results cur index,
     visit markPattern (lit "hello") (results, cur) index
       (lit "## Intro {#intro}") =
       Some (results, {| id := lit "intro"; title := lit "Intro" |})) /\
  (forall results cur index,
     visit markPattern (lit "hello") (results, cur) index (lit "## Next") =
       Some (results, {| id := lit "next"; title := lit "Next" |})).
Proof. split_and!; by vm_compute. Qed.

End SearchFacts.

(** ** The markdown line renderer *)

Module FenceFacts.
Import JS MarkdownRenderer Fence.

(** [step], by cases on the line and the state. *)
Lemma step_open bm st i line :
  isFence line = true -> inCodeBlock st = false ->
  step bm st i line =
    {| elements := elements st;
       currentCodeBlock := currentCodeBlock st;
       inCodeBlock := true;
       codeBlockLanguage := sliceFrom line 3;
       codeBlockId := codeBlockId st |}.
Proof. unfold step, isFence. by intros -> ->. Qed.

Lemma step_close bm st i line :
  isFence line = true -> inCodeBlock st = true ->
  step bm st i line =
    {| elements :=
         elements st ++
         [CodeBlock (lit "code-" ++ natToString (codeBlockId st))
                    (codeBlockLanguage st) (currentCodeBlock st)];
       currentCodeBlock := [];
       inCodeBlock := false;
       codeBlockLanguage := [];
       codeBlockId := S (codeBlockId st) |}.
Proof. unfold step, isFence. by intros -> ->. Qed.

Lemma step_inside bm st i line :
  isFence line = false -> inCodeBlock st = true ->
  step bm st i line =
    {| elements := elements st;
       currentCodeBlock := currentCodeBlock st ++ line ++ [LF];
       inCodeBlock := true;
       codeBlockLanguage := codeBlockLanguage st;
       codeBlockId := codeBlockId st |}.
Proof. unfold step, isFence. by intros -> ->. Qed.

Lemma step_outside bm st i line :
  isFence line = false -> inCodeBlock st = false ->
  step bm st i line =
    match elementOfLine bm i line with
    | Some e => push e st
    | None => st
    end.
Proof. unfold step, isFence. by intros -> ->. Qed.

Lemma run_app bm st i l1 l2 :
  run bm st i (l1 ++ l2) = run bm (run bm st i l1) (i + length l1) l2.
Proof.
  revert st i. induction l1 as [|l l1 IH]; intros st i; cbn [app run length].
  - by rewrite Nat.add_0_r.
  - rewrite IH. f_equal. lia.
Qed.

(** Elements are only ever appended. *)
Lemma step_extends bm st i line :
  exists tail, elements (step bm st i line) = elements st ++ tail.
Proof.
  destruct (isFence line) eqn:El, (inCodeBlock st) eqn:Ein.
  - rewrite step_close by done. by eexists.
  - rewrite step_open by done. exists []. by rewrite app_nil_r.
  - rewrite step_inside by done. exists []. by rewrite app_nil_r.
  - rewrite step_outside by done.
    destruct (elementOfLine bm i line); cbn;
      [by eexists | by exists []; rewrite app_nil_r].
Qed.

Lemma run_extends bm st i lines :
  exists tail, elements (run bm st i lines) = elements st ++ tail.
Proof.
  revert st i. induction lines as [|l lines IH]; intros st i; cbn [run].
  - exists []. by rewrite app_nil_r.
  - destruct (IH (step bm st i l) (S i)) as [t1 ->].
    destruct (step_extends bm st i l) as [t2 ->].
    exists (t2 ++ t1). by rewrite app_assoc.
Qed.

Lemma step_buffer_ok bm st i line :
  buffer_ok st -> buffer_ok (step bm st i line).
Proof.
  unfold buffer_ok. intros H.
  destruct (isFence line) eqn:El, (inCodeBlock st) eqn:Ein.
  - by rewrite step_close.
  - by rewrite step_open.
  - by rewrite step_inside.
  - rewrite step_outside by done.
    destruct (elementOfLine bm i line); cbn; auto.
Qed.

Lemma run_buffer_ok bm st i lines :
  buffer_ok st -> buffer_ok (run bm st i lines).
Proof.
  revert st i. induction lines as [|l lines IH]; intros st i H; [done|].
  cbn [run]. by apply IH, step_buffer_ok.
Qed.

(** The state after some lines, by the number of delimiters among them:
    whether a fence is open, and how many have been closed. *)
Lemma run_fences bm st i lines :
  inCodeBlock (run bm st i lines) =
    xorb (inCodeBlock st) (Nat.odd (fenceCount lines)) /\
  codeBlockId (run bm st i lines) =
    (codeBlockId st +
     Nat.div2 (fenceCount lines + if inCodeBlock st then 1 else 0))%nat.
Proof.
  revert st i. induction lines as [|l lines IH]; intros st i.
  - cbn. destruct (inCodeBlock st); cbn; split; (done || lia).
  - cbn [run]. destruct (IH (step bm st i l) (S i)) as [-> ->].
    unfold fenceCount. cbn [List.filter].
    destruct (isFence l) eqn:El; destruct (inCodeBlock st) eqn:Ein;
      cbn [length].
    + rewrite step_close by done. cbn [inCodeBlock codeBlockId].
      rewrite Nat.odd_succ, <- Nat.negb_odd.
      split; [by destruct (Nat.odd _)|].
      rewrite Nat.add_0_r, Nat.add_1_r. cbn [Nat.div2]. lia.
    + rewrite step_open by done. cbn [inCodeBlock codeBlockId].
      rewrite Nat.odd_succ, <- Nat.negb_odd.
      split; [by destruct (Nat.odd _)|].
      by rewrite Nat.add_0_r, Nat.add_1_r.
    + by rewrite step_inside.
    + rewrite step_outside by done.
      destruct (elementOfLine bm i l); cbn; by rewrite Ein.
Qed.

(** Inside a fence every line that is no delimiter goes to the buffer as
    it is. *)
Lemma run_interior bm st i interior :
  inCodeBlock st = true ->
  forallb (fun line => negb (isFence line)) interior = true ->
  run bm st i interior =
    {| elements := elements st;
       currentCodeBlock := currentCodeBlock st ++ verbatim interior;
       inCodeBlock := true;
       codeBlockLanguage := codeBlockLanguage st;
       codeBlockId := codeBlockId st |}.
Proof.
  revert st i. induction interior as [|l ls IH]; intros st i Hin Hl.
  - cbn. rewrite app_nil_r. destruct st; cbn in *; by subst.
  - cbn in Hl. apply andb_prop in Hl as [Hl%negb_true_iff Hls].
    cbn [run]. rewrite step_inside by done.
    rewrite IH by done. cbn. unfold verbatim. cbn [map concat].
    by rewrite <- !app_assoc.
Qed.

(** The elements a state starts with stay in front. *)
Lemma step_prepend bm es st i line :
  step bm (prepend es st) i line = prepend es (step bm st i line).
Proof.
  destruct (isFence line) eqn:El, (inCodeBlock st) eqn:Ein.
  - rewrite !step_close by done. unfold prepend. cbn. by rewrite app_assoc.
  - by rewrite !step_open.
  - by rewrite !step_inside.
  - rewrite !step_outside by done.
    destruct (elementOfLine bm i line); [|done].
    unfold prepend, push. cbn. by rewrite app_assoc.
Qed.

Lemma run_prepend bm es st i lines :
  run bm (prepend es st) i lines = prepend es (run bm st i lines).
Proof.
  revert st i. induction lines as [|l lines IH]; intros st i; [done|].
  cbn [run]. by rewrite step_prepend, IH.
Qed.

Lemma fenced_block bm lines pre opening interior closing post :
  lines = pre ++ opening :: interior ++ closing :: post ->
  Nat.even (fenceCount pre) = true ->
  isFence opening = true ->
  forallb (fun line => negb (isFence line)) interior = true ->
  isFence closing = true ->
  parseLines bm lines =
    parseLines bm pre ++
    CodeBlock (lit "code-" ++ natToString (Nat.div2 (fenceCount pre)))
              (sliceFrom opening 3) (verbatim interior) ::
    elements (run bm (afterFence (S (Nat.div2 (fenceCount pre))))
                (length pre + length interior + 2) post).
Proof.
  intros -> Hpre Ho Hi Hc. unfold parseLines.
  rewrite run_app. cbn [run]. set (st := run bm initial 0 pre).
  destruct (run_fences bm initial 0 pre) as [Hin Hid]. fold st in Hin, Hid.
  cbn in Hin, Hid. rewrite <- Nat.negb_even, Hpre in Hin. cbn in Hin.
  rewrite Nat.add_0_r in Hid.
  assert (Hbuf : currentCodeBlock st = []).
  { by apply (run_buffer_ok bm initial 0 pre). }
  rewrite run_app. cbn [run].
  rewrite (step_open bm st) by done.
  rewrite (run_interior bm _ _ interior) by done.
  rewrite step_close by done.
  cbn [elements currentCodeBlock codeBlockLanguage codeBlockId].
  rewrite Hbuf, Hid. cbn [app].
  set (block := CodeBlock _ _ _).
  match goal with
  | |- context [run bm ?s _ post] =>
      replace s with (prepend (elements st ++ [block])
                        (afterFence (S (Nat.div2 (fenceCount pre)))))
        by (unfold prepend, afterFence; cbn; by rewrite app_nil_r)
  end.
  rewrite run_prepend. cbn [prepend elements].
  rewrite <- app_assoc. cbn [app].
  by replace (S (S (0 + length pre) + length interior))
    with (length pre + length interior + 2)%nat by lia.
Qed.

(** C3.  When the lines of a text are [pre], an opening delimiter, the
    lines [interior] none of which is a delimiter, a closing delimiter
    and [post], with every fence of [pre] closed, the renderer emits the
    elements of [pre], then one code block for the fence, then the
    elements of [post].  The language of the block is what follows the
    three backticks of the opening delimiter and its code is every
    interior line as it is, each followed by a line feed; no other
    element comes from the interior lines.  The three-line text of the
    scenario yields exactly one element, the code block with language
    [js] and the body [function f() { return 1; }] with its line feed. *)
Theorem fenced_block_verbatim :
  (forall bm text pre opening interior closing post,
     split LF text = pre ++ opening :: interior ++ closing :: post ->
     Nat.even (fenceCount pre) = true ->
     isFence opening = true ->
     forallb (fun line => negb (isFence line)) interior = true ->
     isFence closing = true ->
     parseMarkdown bm text =
       parseLines bm pre ++
       CodeBlock (lit "code-" ++ natToString (Nat.div2 (fenceCount pre)))
                 (sliceFrom opening 3) (verbatim interior) ::
       elements (run bm (afterFence (S (Nat.div2 (fenceCount pre))))
                   (length pre + length interior + 2) post)) /\
  (forall bm,
     parseMarkdown bm fencedSample =
       [CodeBlock (lit "code-0") (lit "js")
                  (lit "function f() { return 1; }" ++ [LF])]).
Proof.
  split.
  - intros. unfold parseMarkdown. by eapply fenced_block.
  - done.
Qed.

(** A fence whose lines look like a heading and a bullet, behind a
    paragraph. *)
Lemma fenced_block_verbatim_witness :
  parseMarkdown []
    (unlines ["intro"; "```md"; "# not a heading"; "- not a bullet";
              "```"; "outro"]%string) =
    [P 0 (lit "intro");
     CodeBlock (lit "code-0") (lit "md")
       (lit "# not a heading" ++ [LF] ++ lit "- not a bullet" ++ [LF]);
     P 5 (lit "outro")].
Proof.
  apply (proj1 fenced_block_verbatim []
           (unlines ["intro"; "```md"; "# not a heading"; "- not a bullet";
                     "```"; "outro"]%string)
           [lit "intro"] (lit "```md")
           [lit "# not a heading"; lit "- not a bullet"] (lit "```")
           [lit "outro"]); reflexivity.
Defined.

Lemma startsWith_cons a p s :
  startsWith (a :: p) s = true -> exists t, s = a :: t /\ startsWith p t = true.
Proof.
  destruct s as [|b t]; [done|]. cbn.
  intros [->%Ascii.eqb_eq H]%andb_prop. by exists t.
Qed.

(** A line that starts with [- **] and does not have the form of a
    definition yields no element at all. *)
Lemma bold_bullet_dropped bm i line :
  startsWith (lit "- **") line = true ->
  RegExp.exec reDefinition line = None ->
  elementOfLine bm i line = None.
Proof.
  intros Hs Hd. unfold elementOfLine. rewrite Hs, Hd.
  apply startsWith_cons in Hs as (t & -> & _).
  by change (startsWith (lit "# ") ("-"%char :: t)) with false.
Qed.

(** C2, on the code.  A bullet of python.md whose bold term holds the
    colon is outside any fence and not empty, yet the renderer emits
    nothing for it, so its text is lost; the same bullet without the
    emphasis is rendered as a list item. *)
Theorem bold_bullet_text_is_lost :
  startsWith (lit "- **") boldBullet = true /\
  RegExp.exec reDefinition boldBullet = None /\
  (forall bm, parseMarkdown bm boldBullet = []) /\
  (forall bm,
     parseMarkdown bm plainBullet =
       [Li 0 (lit "List: Ordered, mutable, allows duplicates.")]).
Proof. split_and!; by vm_compute. Qed.

End FenceFacts.

(** ** Heading ids in the three places *)

Module IdFacts.
Import JS RegExp Heading.

(** The search matcher's pattern is the renderer's. *)
Lemma reHeader_reH2 : SearchPanel.reHeader = MarkdownRenderer.reH2.
Proof. reflexivity. Qed.

(** A match of the heading pattern always holds a non-empty title in its
    first group. *)
Lemma reH2_title line mr :
  exec MarkdownRenderer.reH2 line = Some mr ->
  exists t, groups mr !! 1%nat = Some t /\ t <> [].
Proof.
  intros (prev & s & H)%RegExpFacts.execFrom_matchHere.
  unfold matchHere, MarkdownRenderer.reH2 in H. cbn [Seq] in H.
  apply RegExpFacts.m_cat_success in H as (p1 & s1 & c1 & H & _ & _).
  apply RegExpFacts.m_cat_success in H as (p2 & s2 & c2 & H & _ & _).
  apply RegExpFacts.m_group_success in H as (p3 & s3 & c3 & H & L).
  apply RegExpFacts.m_success in H as (p4 & s4 & c4 & [= _ <-] & _ & G).
  rewrite G by (cbn; set_solver). rewrite lookup_insert_eq.
  eexists. split; [done|]. cbn in L. intros E%(f_equal length).
  rewrite length_take in E. cbn in E. lia.
Qed.

(** The renderer and the search matcher derive the same title and the
    same id from every heading line. *)
Lemma renderer_and_search_agree mark q results cur index line mr :
  exec SearchPanel.reHeader line = Some mr ->
  SearchPanel.visit mark q (results, cur) index line =
    Some (results,
          {| SearchPanel.id := MarkdownRenderer.h2Id line;
             SearchPanel.title := MarkdownRenderer.h2Title line |}).
Proof.
  intros E. unfold SearchPanel.visit. rewrite E.
  rewrite reHeader_reH2 in E.
  unfold MarkdownRenderer.h2Id, MarkdownRenderer.h2Title. rewrite E.
  cbn [mbind option_bind].
  destruct (reH2_title line mr E) as (t & -> & Ht). cbn [default].
  unfold MarkdownRenderer.captureOr at 3. unfold orElse.
  by destruct t.
Qed.

(** C1, on the code.  For the heading [## Authentication & Security] of
    nodejs.md the renderer and the search matcher derive the id
    [authentication-&-security], the section extractor the id
    [authentication-security]. *)
Theorem heading_ids_differ :
  (forall bm i,
     MarkdownRenderer.elementOfLine bm i ampersandHeading =
       Some (MarkdownRenderer.H2 i (lit "authentication-&-security")
               (lit "Authentication & Security")
               (bool_decide (lit "authentication-&-security" ∈ bm)))) /\
  (forall mark q results cur index,
     SearchPanel.visit mark q (results, cur) index ampersandHeading =
       Some (results,
             {| SearchPanel.id := lit "authentication-&-security";
                SearchPanel.title := lit "Authentication & Security" |})) /\
  ContentLoader.sectionOfLine ampersandHeading =
    Some {| ContentLoader.id := lit "authentication-security";
            ContentLoader.title := lit "Authentication & Security";
            ContentLoader.level := 2 |}.
Proof. split_and!; by vm_compute. Qed.

End IdFacts.

(** ** Loading a document *)

Module LoaderFacts.
Import JS ContentLoader.

(** C8.  For a content id without an entry in the content map the try
    block throws and [loadMarkdownContent] returns the placeholder
    document: title [Document Not Found], no sections, and a content
    that names the requested id. *)
Theorem missing_content_gives_placeholder
    (contentMap : gmap jsstring jsstring) (contentId : jsstring) :
  contentMap !! contentId = None ->
  (exists thrown, tryLoad contentMap contentId = inl thrown) /\
  loadMarkdownContent contentMap contentId =
    {| doc_title := lit "Document Not Found";
       doc_content :=
         lit "# Document Not Found" ++ [LF; LF] ++
         lit "The requested document " ++ [DQUOTE] ++ contentId ++
         [DQUOTE] ++ lit " could not be loaded.";
       doc_sections := [] |}.
Proof.
  intros H. unfold loadMarkdownContent, tryLoad, getProp. rewrite H.
  destruct (bool_decide _); split; by eauto.
Qed.

Lemma missing_content_gives_placeholder_witness :
  loadMarkdownContent {[ lit "react" := lit "# React" ]} (lit "vue") =
    {| doc_title := lit "Document Not Found";
       doc_content :=
         lit "# Document Not Found" ++ [LF; LF] ++
         lit "The requested document " ++ [DQUOTE] ++ lit "vue" ++
         [DQUOTE] ++ lit " could not be loaded.";
       doc_sections := [] |}.
Proof.
  apply (missing_content_gives_placeholder
           {[ lit "react" := lit "# React" ]} (lit "vue")).
  reflexivity.
Defined.

End LoaderFacts.

(** ** Bookmarks *)

Module BookmarkFacts.
Import App Bookmarks.

Lemma elem_of_others x y l : y ∈ others x l <-> y ∈ l /\ y <> x.
Proof.
  unfold others. rewrite !list_elem_of_In, filter_In, negb_true_iff.
  by rewrite bool_decide_eq_false.
Qed.

Lemma others_absent x l : x ∉ l -> others x l = l.
Proof.
  unfold others. induction l as [|a l IH]; [done|]. intros H.
  apply not_elem_of_cons in H as [Hxa Hl]. cbn [List.filter].
  rewrite bool_decide_eq_false_2 by done. cbn [negb]. by rewrite IH.
Qed.

Lemma others_idem x l : others x (others x l) = others x l.
Proof. apply others_absent. rewrite elem_of_others. naive_solver. Qed.

(** C9.  When the id is bookmarked, [toggleBookmark] removes every
    occurrence of it; when it is not, the id is appended at the end.
    Toggling the same id twice gives back the bookmarks the list had, and
    toggling an id leaves the other ids as they were, in their order. *)
Theorem toggleBookmark_spec (prev : list jsstring) (sectionId : jsstring) :
  (sectionId ∈ prev ->
     toggleBookmark prev sectionId = others sectionId prev /\
     sectionId ∉ toggleBookmark prev sectionId) /\
  (sectionId ∉ prev -> toggleBookmark prev sectionId = prev ++ [sectionId]) /\
  (forall y, y ∈ toggleBookmark (toggleBookmark prev sectionId) sectionId
             <-> y ∈ prev) /\
  others sectionId (toggleBookmark prev sectionId) = others sectionId prev.
Proof.
  unfold toggleBookmark. fold (others sectionId prev).
  split_and!.
  - intros H. rewrite bool_decide_eq_true_2 by done.
    split; [done|]. rewrite elem_of_others. naive_solver.
  - intros H. by rewrite bool_decide_eq_false_2.
  - intros y. destruct (decide (sectionId ∈ prev)) as [H|H].
    + rewrite (bool_decide_eq_true_2 _ H).
      rewrite bool_decide_eq_false_2 by (rewrite elem_of_others; naive_solver).
      rewrite elem_of_app, elem_of_others, list_elem_of_singleton.
      destruct (decide (y = sectionId)); naive_solver.
    + rewrite (bool_decide_eq_false_2 _ H).
      rewrite bool_decide_eq_true_2 by set_solver.
      fold (others sectionId (prev ++ [sectionId])).
      rewrite elem_of_others, elem_of_app, list_elem_of_singleton.
      destruct (decide (y = sectionId)); naive_solver.
  - destruct (decide (sectionId ∈ prev)) as [H|H].
    + rewrite (bool_decide_eq_true_2 _ H). apply others_idem.
    + rewrite (bool_decide_eq_false_2 _ H). unfold others at 1.
      rewrite List.filter_app. cbn [List.filter].
      rewrite bool_decide_eq_true_2 by done. cbn [negb].
      by rewrite app_nil_r.
Qed.

(** A list that holds [intro] twice, and one that does not hold it. *)
Lemma toggleBookmark_spec_witness :
  toggleBookmark [lit "intro"; lit "api"; lit "intro"] (lit "intro") =
    [lit "api"] /\
  toggleBookmark [lit "api"] (lit "intro") = [lit "api"; lit "intro"].
Proof.
  split.
  - destruct (toggleBookmark_spec [lit "intro"; lit "api"; lit "intro"]
                (lit "intro")) as [H _].
    destruct H as [-> _]; [|reflexivity].
    apply (bool_decide_unpack _). reflexivity.
  - destruct (toggleBookmark_spec [lit "api"] (lit "intro")) as (_ & H & _).
    rewrite H; [reflexivity|].
    apply (bool_decide_unpack _). reflexivity.
Defined.

End BookmarkFacts.

(** ** Notes *)

Module NoteFacts.
Import JS NotesPanel Notes.

Lemma trimStart_head s :
  match trimStart s with [] => True | a :: _ => isSpace a = false end.
Proof.
  induction s as [|a s IH]; [done|]. cbn.
  by destruct (isSpace a) eqn:E.
Qed.

Lemma trimStart_suffix s : exists pre, s = pre ++ trimStart s.
Proof.
  induction s as [|a s [pre IH]]; [by exists []|]. cbn.
  destruct (isSpace a).
  - exists (a :: pre). cbn. by rewrite <- IH.
  - by exists [].
Qed.

Lemma trimEnd_prefix s : exists post, s = trimEnd s ++ post.
Proof.
  unfold trimEnd. destruct (trimStart_suffix (rev s)) as [pre E].
  exists (rev pre). rewrite <- rev_app_distr, <- E. by rewrite rev_involutive.
Qed.

Lemma trim_isTrimmed s : isTrimmed (trim s) = true.
Proof.
  unfold isTrimmed, trim. apply andb_true_intro. split.
  - destruct (trimEnd_prefix (trimStart s)) as [post E].
    pose proof (trimStart_head s) as H.
    destruct (trimEnd (trimStart s)) as [|a t]; [done|].
    rewrite E in H. cbn in H. by rewrite H.
  - unfold trimEnd. rewrite rev_involutive.
    pose proof (trimStart_head (rev (trimStart s))) as H.
    destruct (trimStart (rev (trimStart s))); [done|]. by rewrite H.
Qed.

Lemma split_no_sep sep s : Forall (fun piece => sep ∉ piece) (split sep s).
Proof.
  induction s as [|c s IH]; cbn.
  - repeat constructor. set_solver.
  - destruct (Ascii.eqb c sep) eqn:E.
    + constructor; [set_solver|done].
    + apply Ascii.eqb_neq in E.
      destruct (split sep s) as [|l ls]; [repeat constructor; set_solver|].
      apply Forall_cons in IH as [H1 H2]. constructor; [set_solver|done].
Qed.

Lemma trimStart_subset s a : a ∈ trimStart s -> a ∈ s.
Proof.
  destruct (trimStart_suffix s) as [pre E]. rewrite E at 2. set_solver.
Qed.

Lemma trim_subset s a : a ∈ trim s -> a ∈ s.
Proof.
  unfold trim, trimEnd. rewrite list_elem_of_In, <- in_rev, <- list_elem_of_In.
  intros H%trimStart_subset. apply trimStart_subset.
  by rewrite list_elem_of_In, in_rev, <- list_elem_of_In.
Qed.

(** C10.  [addNote] leaves the panel as it is unless the title and the
    content of the form are both non-empty once trimmed; then, and only
    then, a note is put in front of the notes.  It has the title and
    content of the form, the section of the form or [General] when that
    field is empty, and as tags the pieces of the tags field between
    commas, trimmed, the empty ones left out: each tag is non-empty, has
    no white space at either end and holds no comma. *)
Theorem addNote_spec (clock : Clock) (p : Panel) :
  (canSubmit (newNote p) = false -> addNote clock p = p) /\
  (canSubmit (newNote p) = true ->
     exists note,
       addNote clock p =
         {| notes := note :: notes p; newNote := emptyForm;
            showNewNoteForm := false |} /\
       title note = new_title (newNote p) /\
       content note = new_content (newNote p) /\
       section note =
         match new_section (newNote p) with
         | [] => lit "General"
         | _ => new_section (newNote p)
         end /\
       tags note =
         List.filter truthy (map trim (split "," (new_tags (newNote p)))) /\
       Forall (fun tag => tag <> [] /\ isTrimmed tag = true /\
                          ","%char ∉ tag) (tags note)) /\
  (notes (addNote clock p) <> notes p <-> canSubmit (newNote p) = true).
Proof.
  unfold addNote. fold (canSubmit (newNote p)).
  destruct (canSubmit (newNote p)) eqn:E; split_and!; try done.
  - intros _. eexists. split; [done|]. cbn.
    split_and!; try done.
    + by destruct (new_section (newNote p)).
    + unfold tagsOf. apply Forall_forall. intros tag.
      rewrite list_elem_of_In, filter_In, <- list_elem_of_In, list_elem_of_fmap.
      intros [(piece & -> & Hp) Ht]. split_and!.
      * by destruct (trim piece).
      * apply trim_isTrimmed.
      * intros Hc%trim_subset.
        pose proof (split_no_sep "," (new_tags (newNote p))) as Hs.
        rewrite Forall_forall in Hs. by apply (Hs piece).
  - split; [done|]. intros _. cbn. intros H.
    apply (f_equal length) in H. cbn in H. lia.
Qed.

(** A form with a title, a content, no section and three tags, one of
    them empty; and a form whose title is only white space. *)
Lemma addNote_spec_witness :
  (exists note,
     addNote {| now := 1700000000000%N; created := 1700000000000%N;
                updated := 1700000000001%N |}
       {| notes := [];
          newNote := {| new_title := lit "Hooks"; new_content := lit "memo";
                        new_section := []; new_tags := lit "react, , hooks" |};
          showNewNoteForm := true |} =
       {| notes := [note]; newNote := emptyForm; showNewNoteForm := false |} /\
     section note = lit "General" /\
     tags note = [lit "react"; lit "hooks"]) /\
  addNote {| now := 0%N; created := 0%N; updated := 0%N |}
    {| notes := [];
       newNote := {| new_title := lit "  "; new_content := lit "memo";
                     new_section := []; new_tags := [] |};
       showNewNoteForm := true |} =
    {| notes := [];
       newNote := {| new_title := lit "  "; new_content := lit "memo";
                     new_section := []; new_tags := [] |};
       showNewNoteForm := true |}.
Proof.
  split.
  - destruct (addNote_spec
                {| now := 1700000000000%N; created := 1700000000000%N;
                   updated := 1700000000001%N |}
                {| notes := [];
                   newNote := {| new_title := lit "Hooks";
                                 new_content := lit "memo";
                                 new_section := [];
                                 new_tags := lit "react, , hooks" |};
                   showNewNoteForm := true |}) as (_ & H & _).
    destruct H as (note & E & _ & _ & Hs & Ht & _); [reflexivity|].
    exists note. split; [exact E|]. split; [exact Hs|exact Ht].
  - apply addNote_spec. reflexivity.
Defined.

End NoteFacts.

(** ** Slugs *)

Module SlugFacts.
Import JS RegExp RegExpFacts Slug.

Lemma afterRun_suffix p s :
  drop (length s - length (afterRun p s)) s = afterRun p s.
Proof.
  induction s as [|a s IH]; [done|]. cbn [afterRun].
  destruct (p a).
  - assert (length (afterRun p s) <= length s)%nat.
    { rewrite <- IH at 1. rewrite length_drop. lia. }
    replace (length (a :: s) - length (afterRun p s))%nat
      with (S (length s - length (afterRun p s))) by (cbn; lia).
    done.
  - by rewrite Nat.sub_diag.
Qed.

Lemma afterRun_length p s : (length (afterRun p s) <= length s)%nat.
Proof. rewrite <- afterRun_suffix at 1. rewrite length_drop. lia. Qed.

(** [p+] takes the whole run in front. *)
Lemma repGreedy_run p prev s :
  repGreedy p (fun _ s' => Some (s', (∅ : caps))) prev s =
    Some (afterRun p s, ∅).
Proof.
  revert prev. induction s as [|a s IH]; intros prev; [done|].
  cbn [repGreedy afterRun]. destruct (p a); [|done]. by rewrite IH.
Qed.

Lemma matchHere_plus p prev s :
  matchHere (Plus true p) prev s =
    match s with
    | a :: t => if p a then Some (afterRun p t, ∅) else None
    | [] => None
    end.
Proof.
  unfold matchHere, Plus. cbn [m]. destruct s as [|a t]; [done|].
  destruct (p a); [|done]. apply repGreedy_run.
Qed.

Lemma collapse_afterRun p s :
  collapse p true s = collapse p false (afterRun p s).
Proof.
  induction s as [|a s IH]; [done|]. cbn [collapse afterRun].
  destruct (p a) eqn:E; [done|]. cbn [collapse]. by rewrite E.
Qed.

(** Replacing every match of [p+] by a hyphen collapses the runs. *)
Lemma replaceAll_plus p s :
  replaceAll (Plus true p) (fun _ _ => lit "-") s = collapse p false s.
Proof.
  unfold replaceAll. generalize (@None ascii).
  induction s as [s IH] using (induction_ltof1 _ (@length ascii)).
  unfold ltof in IH. intros prev. destruct s as [|a t]; [done|].
  cbn [replaceAllFrom]. rewrite matchHere_plus. cbn [collapse].
  destruct (p a).
  - pose proof (afterRun_length p t).
    replace (length (a :: t) - length (afterRun p t))%nat
      with (S (length t - length (afterRun p t))) by (cbn; lia).
    rewrite SnippetFacts.replaceAllFrom_skip by lia.
    rewrite afterRun_suffix, IH by (cbn; lia).
    by rewrite collapse_afterRun.
  - f_equal. apply IH. cbn. lia.
Qed.

Lemma collapse_ext p q b s :
  Forall (fun a => p a = q a) s -> collapse p b s = collapse q b s.
Proof.
  intros H. revert b. induction H as [|a s Ha _ IH]; intros b; [done|].
  cbn [collapse]. rewrite Ha. destruct (q a); by rewrite ?IH.
Qed.

(** What [collapse] writes: hyphens and the characters outside the class. *)
Lemma collapse_chars p b s :
  Forall (fun c => p c = false \/ c = "-"%char) (collapse p b s).
Proof.
  revert b. induction s as [|a s IH]; intros b; [by constructor|].
  cbn [collapse]. destruct (p a) eqn:E.
  - destruct b; [done|]. constructor; [by right|done].
  - constructor; [by left|done].
Qed.

Lemma collapse_noDouble p s :
  p "-"%char = true ->
  (forall b, noDoubleHyphen (collapse p b s) = true) /\
  (forall t, collapse p true s <> "-"%char :: t).
Proof.
  intros Hp. induction s as [|a s [IH1 IH2]]; [done|].
  cbn [collapse]. destruct (p a) eqn:E.
  - split; [|done]. intros [|]; [done|].
    cbn [noDoubleHyphen]. rewrite IH1, andb_true_r.
    destruct (collapse p true s) as [|c t] eqn:Ec; [done|].
    rewrite negb_true_iff, andb_false_iff. right.
    apply Ascii.eqb_neq. intros ->. by apply (IH2 t).
  - assert (a <> "-"%char) as Ha by (intros ->; congruence).
    split.
    + intros _. cbn [noDoubleHyphen]. rewrite IH1, andb_true_r.
      destruct (collapse p false s); [done|].
      rewrite negb_true_iff, andb_false_iff. left. by apply Ascii.eqb_neq.
    + intros t [= ? _]. done.
Qed.

(** A text in which the class holds only single hyphens is left as it
    is. *)
Lemma collapse_fixed p s :
  Forall (fun c => p c = true -> c = "-"%char) s ->
  noDoubleHyphen s = true ->
  collapse p false s = s /\
  (head s <> Some "-"%char -> collapse p true s = s).
Proof.
  induction 1 as [|a s Ha Hs IH]; [done|].
  cbn [noDoubleHyphen]. intros [Hd Hn]%andb_prop.
  destruct (IH Hn) as [IH1 IH2]. cbn [collapse].
  destruct (p a) eqn:E.
  - rewrite (Ha eq_refl) in *. split; [|by intros []].
    f_equal. apply IH2. destruct s as [|b s]; [done|].
    cbn. intros [= ->]. done.
  - rewrite IH1. done.
Qed.

Lemma lowerChar_slugChar c : isSlugChar c = true -> lowerChar c = c.
Proof.
  destruct c as [[] [] [] [] [] [] [] []]; vm_compute; congruence.
Qed.

Lemma lowerChar_idem c : lowerChar (lowerChar c) = lowerChar c.
Proof. by destruct c as [[] [] [] [] [] [] [] []]. Qed.

Lemma toLowerCase_idem s : toLowerCase (toLowerCase s) = toLowerCase s.
Proof.
  unfold toLowerCase. rewrite map_map. apply map_ext. apply lowerChar_idem.
Qed.

Lemma slugOfTitle_collapse title :
  ContentLoader.slugOfTitle title =
    collapse (fun c => negb (ContentLoader.isLowerAlnum c)) false
      (toLowerCase title).
Proof. apply replaceAll_plus. Qed.

Lemma renderer_slug_collapse title :
  MarkdownRenderer.slugOfTitle title =
    collapse isSpace false (toLowerCase title).
Proof. apply replaceAll_plus. Qed.

(** X1.  The id the section extractor generates from a title consists of
    lower-case ASCII letters, digits and hyphens, with no two hyphens
    side by side. *)
Theorem extractor_slug_shape title :
  forallb isSlugChar (ContentLoader.slugOfTitle title) = true /\
  noDoubleHyphen (ContentLoader.slugOfTitle title) = true.
Proof.
  rewrite slugOfTitle_collapse. split.
  - apply forallb_forall. intros c Hc%list_elem_of_In.
    pose proof (collapse_chars (fun c => negb (ContentLoader.isLowerAlnum c))
                  false (toLowerCase title)) as H.
    rewrite Forall_forall in H. unfold isSlugChar.
    destruct (H c Hc) as [E%negb_false_iff| ->]; [by rewrite E|done].
  - by apply collapse_noDouble.
Qed.

(** X2.  Generating an id from a generated id changes nothing. *)
Theorem extractor_slug_idempotent title :
  ContentLoader.slugOfTitle (ContentLoader.slugOfTitle title) =
    ContentLoader.slugOfTitle title.
Proof.
  rewrite (slugOfTitle_collapse (ContentLoader.slugOfTitle title)).
  rewrite slugOfTitle_collapse.
  set (p := fun c => negb (ContentLoader.isLowerAlnum c)).
  set (s := collapse p false (toLowerCase title)).
  pose proof (collapse_chars p false (toLowerCase title)) as Hc.
  fold s in Hc. rewrite Forall_forall in Hc.
  assert (toLowerCase s = s) as ->.
  { unfold toLowerCase. rewrite <- (map_id s) at 2. apply map_ext_in.
    intros c Hin%list_elem_of_In. apply lowerChar_slugChar.
    unfold isSlugChar.
    destruct (Hc c Hin) as [E%negb_false_iff| ->]; [by rewrite E|done]. }
  apply collapse_fixed.
  - apply Forall_forall. intros c Hin E.
    destruct (Hc c Hin) as [E'| ->]; [congruence|done].
  - by apply collapse_noDouble.
Qed.

Lemma collapse_last p s x :
  last s = Some x -> p x = true ->
  last (collapse p false s) = Some "-"%char /\
  last ("-"%char :: collapse p true s) = Some "-"%char.
Proof.
  revert x. induction s as [|a s IH]; intros x; [done|].
  destruct s as [|b s].
  - intros [= ->] Hx. cbn [collapse]. by rewrite Hx.
  - rewrite last_cons_cons. intros Hl Hx.
    destruct (IH x Hl Hx) as [IH1 IH2].
    cbn [collapse] in *. destruct (p a).
    + split; [exact IH2|exact IH2].
    + destruct (p b); cbn in *; by rewrite ?IH1, ?IH2.
Qed.

(** X3.  Hyphens at the ends are kept: the generated id starts with a hyphen
    exactly when the title does not start with a letter of ASCII or a
    digit, and it ends with a hyphen when the title does not end with
    one. *)
Theorem extractor_slug_edges a title b :
  (head (ContentLoader.slugOfTitle (a :: title)) = Some "-"%char <->
   ContentLoader.isLowerAlnum (lowerChar a) = false) /\
  (ContentLoader.isLowerAlnum (lowerChar b) = false ->
   last (ContentLoader.slugOfTitle (title ++ [b])) = Some "-"%char).
Proof.
  rewrite !slugOfTitle_collapse. split.
  - unfold toLowerCase. cbn [map collapse].
    destruct (ContentLoader.isLowerAlnum (lowerChar a)) eqn:E; cbn; [|done].
    split; [|done]. intros [= Ha]. rewrite Ha in E. by vm_compute in E.
  - intros Hb. eapply collapse_last.
    + unfold toLowerCase. rewrite map_app. apply last_snoc.
    + by rewrite Hb.
Qed.

(** X4.  The id the renderer generates from a title holds no white space. *)
Theorem renderer_slug_no_space title :
  forallb (fun c => negb (isSpace c)) (MarkdownRenderer.slugOfTitle title)
    = true.
Proof.
  rewrite renderer_slug_collapse. apply forallb_forall.
  intros c Hc%list_elem_of_In.
  pose proof (collapse_chars isSpace false (toLowerCase title)) as H.
  rewrite Forall_forall in H. by destruct (H c Hc) as [->| ->].
Qed.

Lemma plain_char_classes c :
  isAsciiAlnum c || isBlank c = true ->
  negb (ContentLoader.isLowerAlnum (lowerChar c)) = isSpace (lowerChar c).
Proof.
  destruct c as [[] [] [] [] [] [] [] []]; vm_compute; congruence.
Qed.

Lemma collapse_plain title :
  forallb (fun c => isAsciiAlnum c || isBlank c) title = true ->
  collapse (fun c => negb (ContentLoader.isLowerAlnum c)) false
    (toLowerCase title) =
  collapse isSpace false (toLowerCase title).
Proof.
  intros H. apply collapse_ext. unfold toLowerCase.
  apply Forall_map, Forall_forall.
  intros c Hc%list_elem_of_In. apply plain_char_classes.
  rewrite forallb_forall in H. by apply H.
Qed.

(** X5.  On a title of ASCII letters, digits and blanks the two ways of
    generating an id give the same id. *)
Theorem slugs_agree_on_plain_titles title :
  forallb (fun c => isAsciiAlnum c || isBlank c) title = true ->
  ContentLoader.slugOfTitle title = MarkdownRenderer.slugOfTitle title.
Proof.
  intros H. rewrite slugOfTitle_collapse, renderer_slug_collapse.
  by apply collapse_plain.
Qed.

Lemma slugs_agree_on_plain_titles_witness :
  ContentLoader.slugOfTitle (lit "Core Concepts 2") =
    MarkdownRenderer.slugOfTitle (lit "Core Concepts 2").
Proof. apply slugs_agree_on_plain_titles. reflexivity. Defined.

End SlugFacts.

(** ** Headings without an id of their own *)

Module BareHeadingFacts.
Import JS RegExp RegExpFacts Heading HeadingFacts Slug SlugFacts.

(** No match is found in a text no position of which starts one. *)
Lemma execFrom_nowhere r s prev i :
  (forall u1 u2 q, s = u1 ++ u2 -> matchHere r q u2 = None) ->
  execFrom r prev s i = None.
Proof.
  revert prev i. induction s as [|a s IH]; intros prev i H; cbn [execFrom].
  - by rewrite (H [] [] prev).
  - rewrite (H [] (a :: s) prev eq_refl). apply IH.
    intros u1 u2 q ->. by apply (H (a :: u1)).
Qed.

(** A lazy loop that has to read to the end of the text. *)
Lemma repLazy_end {R} p (k : option ascii -> jsstring -> option R) u prev :
  Forall (fun a => p a = true) u ->
  (forall u1 a u2 q, u = u1 ++ a :: u2 -> k q (a :: u2) = None) ->
  repLazy p k prev u = k (advance prev u) [].
Proof.
  revert prev. induction u as [|a u IH]; intros prev Hp Hk.
  - cbn. by destruct (k prev []).
  - apply Forall_cons in Hp as [Ha Hu]. cbn [repLazy advance].
    rewrite (Hk [] a u prev eq_refl), Ha. apply IH; [done|].
    intros u1 b u2 q ->. by apply (Hk (a :: u1)).
Qed.

Lemma plainTitle_valid TITLE : plainTitle TITLE = true -> validTitle TITLE = true.
Proof.
  unfold plainTitle, validTitle.
  intros [[H1 H2]%andb_prop H3]%andb_prop. rewrite H2, H3, !andb_true_r.
  apply andb_true_intro. split.
  - rewrite forallb_forall in *. intros c Hc. specialize (H1 c Hc).
    revert H1. clear. destruct c as [[] [] [] [] [] [] [] []]; by vm_compute.
  - apply negb_true_iff, not_true_is_false. intros (c & Hc & E)%existsb_exists.
    apply Ascii.eqb_eq in E as <-. rewrite forallb_forall in H1.
    by specialize (H1 _ Hc).
Qed.

(** *** The renderer's pattern *)

Lemma matchHere_reH2_bare TITLE :
  wfTitle TITLE ->
  matchHere MarkdownRenderer.reH2 None (bareHeading TITLE) =
    Some ([], <[1%nat := TITLE]> ∅).
Proof.
  intros HT.
  destruct (title_first _ HT) as (t0 & T' & -> & Ht0).
  pose proof (title_dots _ HT) as [Hd0 HdT]%Forall_cons.
  unfold matchHere, bareHeading, MarkdownRenderer.reH2. regex_simpl.
  rewrite Hd0, repLazy_end; [|done|].
  - regex_simpl. cbn. by rewrite firstn_all.
  - intros u1 a u2 q E. regex_simpl.
    rewrite (plus_blocked _ _ _ _ q); [done|].
    rewrite <- (app_nil_r u2).
    eapply (title_suffix_blocked _ _ (t0 :: u1)); [done|by rewrite E|].
    needs_brace.
Qed.

Lemma h2_bareHeading TITLE :
  wfTitle TITLE ->
  MarkdownRenderer.h2Title (bareHeading TITLE) = TITLE /\
  MarkdownRenderer.h2Id (bareHeading TITLE) =
    MarkdownRenderer.slugOfTitle TITLE.
Proof.
  intros HT.
  assert (MarkdownRenderer.h2Title (bareHeading TITLE) = TITLE) as Ht.
  { unfold MarkdownRenderer.h2Title, exec.
    erewrite execFrom_here by (by apply matchHere_reH2_bare).
    cbn [mbind option_bind groups]. rewrite lookup_insert_eq.
    destruct (title_first _ HT) as (t0 & T' & -> & _). done. }
  split; [done|]. unfold MarkdownRenderer.h2Id. rewrite Ht.
  unfold exec. erewrite execFrom_here by (by apply matchHere_reH2_bare).
  cbn [mbind option_bind groups]. by rewrite lookup_insert_ne, lookup_empty.
Qed.

(** *** The extractor's patterns *)

Lemma trim_bareHeading TITLE :
  wfTitle TITLE -> trim (bareHeading TITLE) = bareHeading TITLE.
Proof.
  intros HT. destruct (title_last _ HT) as (T' & b & -> & Hb).
  unfold bareHeading. cbn [lit list_ascii_of_string app].
  by apply (trim_id "#" ("#"%char :: " "%char :: T') b).
Qed.

Lemma bare_no_brace TITLE u1 a u2 :
  wfTitle TITLE -> bareHeading TITLE = u1 ++ a :: u2 -> a <> "{"%char.
Proof.
  intros HT E ->. pose proof (title_no_brace _ HT) as Hb.
  assert ("{"%char ∈ bareHeading TITLE) as Hin by (rewrite E; set_solver).
  unfold bareHeading in Hin. apply elem_of_app in Hin as [Hin|Hin]; [|done].
  cbn in Hin. set_solver.
Qed.

Lemma sectionOfLine_bareHeading TITLE :
  wfTitle TITLE ->
  ContentLoader.sectionOfLine (bareHeading TITLE) =
    Some {| ContentLoader.id := ContentLoader.slugOfTitle TITLE;
            ContentLoader.title := TITLE;
            ContentLoader.level := 2 |}.
Proof.
  intros HT. unfold ContentLoader.sectionOfLine.
  rewrite trim_bareHeading by done.
  change (startsWith (lit "#") (bareHeading TITLE)) with true. cbn match.
  assert (exec ContentLoader.reHashes (bareHeading TITLE) =
            Some {| index := 0; matched := lit "##"; groups := ∅;
                    after := " "%char :: TITLE |}) as ->.
  { unfold exec.
    erewrite execFrom_here;
      [|unfold matchHere, ContentLoader.reHashes, bareHeading;
        regex_simpl; cbn [repGreedy]; regex_simpl; reflexivity].
    do 2 f_equal. apply (take_app_sub (lit "##")). }
  assert (replaceFirst ContentLoader.reHashesSpace [] (bareHeading TITLE) =
            TITLE) as ->.
  { destruct (title_first _ HT) as (t0 & T' & -> & Ht0).
    unfold replaceFirst, exec.
    erewrite execFrom_here;
      [|unfold matchHere, ContentLoader.reHashesSpace, bareHeading;
        regex_simpl; cbn [repGreedy]; regex_simpl; rewrite Ht0; reflexivity].
    done. }
  assert (replaceFirst ContentLoader.reIdSuffix [] TITLE = TITLE) as ->.
  { unfold replaceFirst, exec. rewrite execFrom_nowhere; [done|].
    intros u1 [|a u2] q E; [done|].
    unfold matchHere, ContentLoader.reIdSuffix. regex_simpl.
    rewrite <- (app_nil_r u2).
    eapply title_suffix_blocked; [done..|]. needs_brace. }
  assert (exec ContentLoader.reIdMatch (bareHeading TITLE) = None) as ->.
  { apply execFrom_nowhere. intros u1 [|a u2] q E; [done|].
    unfold matchHere, ContentLoader.reIdMatch. regex_simpl.
    rewrite isChar_false; [done|]. by eapply bare_no_brace. }
  done.
Qed.



(** X7.  For a heading line [## TITLE] whose title consists of ASCII letters,
    digits and blanks, with no blank at either end, the section
    extractor, the renderer and the search matcher all derive the same
    id and the title [TITLE]. *)
Theorem plain_heading_ids_agree TITLE :
  plainTitle TITLE = true ->
  exists ID,
    ContentLoader.sectionOfLine (bareHeading TITLE) =
      Some {| ContentLoader.id := ID; ContentLoader.title := TITLE;
              ContentLoader.level := 2 |} /\
    (forall bookmarks i,
       MarkdownRenderer.elementOfLine bookmarks i (bareHeading TITLE) =
         Some (MarkdownRenderer.H2 i ID TITLE (bool_decide (ID ∈ bookmarks)))) /\
    (forall mark q results cur index,
       SearchPanel.visit mark q (results, cur) index (bareHeading TITLE) =
         Some (results,
               {| SearchPanel.id := ID; SearchPanel.title := TITLE |})).
Proof.
  intros HP. pose proof (plainTitle_valid _ HP) as HT%validTitle_wf.
  destruct (h2_bareHeading TITLE HT) as [Ht Hi].
  exists (MarkdownRenderer.slugOfTitle TITLE). split_and!.
  - rewrite sectionOfLine_bareHeading by done. do 2 f_equal.
    rewrite slugOfTitle_collapse, renderer_slug_collapse.
    apply collapse_plain.
    by apply andb_prop in HP as [[? _]%andb_prop _].
  - intros bookmarks i.
    change (MarkdownRenderer.elementOfLine bookmarks i (bareHeading TITLE))
      with (Some (MarkdownRenderer.H2 i
              (MarkdownRenderer.h2Id (bareHeading TITLE))
              (MarkdownRenderer.h2Title (bareHeading TITLE))
              (bool_decide
                 (MarkdownRenderer.h2Id (bareHeading TITLE) ∈ bookmarks)))).
    by rewrite Ht, Hi.
  - intros mark q results cur index.
    erewrite IdFacts.renderer_and_search_agree.
    + by rewrite Ht, Hi.
    + rewrite IdFacts.reHeader_reH2. unfold exec.
      apply execFrom_here. by apply matchHere_reH2_bare.
Qed.

Lemma plain_heading_ids_agree_witness :
  exists ID,
    ContentLoader.sectionOfLine (lit "## Core Concepts 2") =
      Some {| ContentLoader.id := ID;
              ContentLoader.title := lit "Core Concepts 2";
              ContentLoader.level := 2 |} /\
    (forall bookmarks i,
       MarkdownRenderer.elementOfLine bookmarks i (lit "## Core Concepts 2") =
         Some (MarkdownRenderer.H2 i ID (lit "Core Concepts 2")
                 (bool_decide (ID ∈ bookmarks)))) /\
    (forall mark q results cur index,
       SearchPanel.visit mark q (results, cur) index
         (lit "## Core Concepts 2") =
         Some (results,
               {| SearchPanel.id := ID;
                  SearchPanel.title := lit "Core Concepts 2" |})).
Proof. apply (plain_heading_ids_agree (lit "Core Concepts 2")). reflexivity. Defined.

End BareHeadingFacts.

(** ** Heading lines in the search panel and in the renderer *)

Module HeaderFacts.
Import JS RegExp RegExpFacts.

(** A pattern anchored at the start of the text matches nowhere else. *)
Lemma execFrom_anchored r a s i :
  execFrom (Cat (Bol false) r) (Some a) s i = None.
Proof.
  revert a i. induction s as [|b s IH]; intros a i; [done|].
  cbn [execFrom]. unfold matchHere. cbn [m andb]. apply IH.
Qed.

Lemma exec_anchored r s mr :
  exec (Cat (Bol false) r) s = Some mr ->
  exists s' c, matchHere (Cat (Bol false) r) None s = Some (s', c).
Proof.
  unfold exec. destruct s as [|a s]; cbn [execFrom].
  - destruct (matchHere _ None []) as [[s' c]|]; [by eauto|done].
  - destruct (matchHere _ None (a :: s)) as [[s' c]|]; [by eauto|].
    by rewrite execFrom_anchored.
Qed.

Lemma reH2_prefix line mr :
  exec MarkdownRenderer.reH2 line = Some mr ->
  startsWith (lit "## ") line = true.
Proof.
  intros (s' & c & H)%exec_anchored. revert H.
  unfold matchHere, MarkdownRenderer.reH2. cbn [Seq Str lit
    list_ascii_of_string m].
  destruct line as [|a [|b [|d t]]]; try done;
    unfold isChar; cbn [startsWith];
    repeat first
      [ done
      | match goal with
        | |- context [Ascii.eqb ?x ?y] =>
            destruct (Ascii.eqb x y); cbv beta iota; cbn [andb]
        end ].
Qed.

Lemma startsWith_h2_not_h1 line :
  startsWith (lit "## ") line = true -> startsWith (lit "# ") line = false.
Proof.
  destruct line as [|a [|b t]]; cbn [lit list_ascii_of_string startsWith];
    [done|by rewrite andb_false_r|].
  intros [_ [Hb _]%andb_prop]%andb_prop. apply Ascii.eqb_eq in Hb as <-.
  by rewrite andb_false_r.
Qed.

(** X8.  Every line the search panel takes for a section heading is a line
    the renderer, outside a code block, shows as a level-2 heading, with
    the same id and the same title. *)
Theorem search_heading_is_rendered_heading line mr :
  exec SearchPanel.reHeader line = Some mr ->
  exists ID TITLE,
    (forall mark q results cur index,
       SearchPanel.visit mark q (results, cur) index line =
         Some (results,
               {| SearchPanel.id := ID; SearchPanel.title := TITLE |})) /\
    (forall bookmarks i,
       MarkdownRenderer.elementOfLine bookmarks i line =
         Some (MarkdownRenderer.H2 i ID TITLE (bool_decide (ID ∈ bookmarks)))).
Proof.
  intros E. exists (MarkdownRenderer.h2Id line), (MarkdownRenderer.h2Title line).
  split.
  - intros. by eapply IdFacts.renderer_and_search_agree.
  - intros bookmarks i. rewrite IdFacts.reHeader_reH2 in E.
    apply reH2_prefix in E. unfold MarkdownRenderer.elementOfLine.
    by rewrite (startsWith_h2_not_h1 _ E), E.
Qed.

Lemma search_heading_is_rendered_heading_witness :
  exists ID TITLE,
    (forall mark q results cur index,
       SearchPanel.visit mark q (results, cur) index
         (lit "## Getting Started {#start}") =
         Some (results,
               {| SearchPanel.id := ID; SearchPanel.title := TITLE |})) /\
    (forall bookmarks i,
       MarkdownRenderer.elementOfLine bookmarks i
         (lit "## Getting Started {#start}") =
         Some (MarkdownRenderer.H2 i ID TITLE (bool_decide (ID ∈ bookmarks)))).
Proof.
  eapply (search_heading_is_rendered_heading
            (lit "## Getting Started {#start}")).
  vm_compute. reflexivity.
Defined.

End HeaderFacts.

(** ** The section extractor, line by line *)

Module ExtractorFacts.
Import JS RegExp RegExpFacts ContentLoader.

Lemma sectionsLoop_omap lines sections :
  sectionsLoop lines sections = sections ++ omap sectionOfLine lines.
Proof.
  revert sections. induction lines as [|l lines IH]; intros sections.
  - by rewrite app_nil_r.
  - cbn [sectionsLoop omap list_omap]. rewrite IH.
    destruct (sectionOfLine l); [by rewrite <- app_assoc|done].
Qed.

Lemma sectionOfLine_is_Some line :
  is_Some (sectionOfLine line) <-> startsWith (lit "#") (trim line) = true.
Proof.
  unfold sectionOfLine.
  destruct (startsWith _ _); split;
    first [done | by eexists | by intros [? ?]].
Qed.

(** X9.  The extractor returns one section for each line whose text, white
    space at its ends aside, starts with a hash, in the order of the
    lines; nothing else about the text matters, a code fence around the
    line included. *)
Theorem sections_line_by_line content :
  parseMarkdownSections content = omap sectionOfLine (split LF content) /\
  length (parseMarkdownSections content) =
    length (List.filter (fun line => startsWith (lit "#") (trim line))
              (split LF content)) /\
  forall line,
    line ∈ split LF content -> startsWith (lit "#") (trim line) = true ->
    exists sec, sectionOfLine line = Some sec /\
                sec ∈ parseMarkdownSections content.
Proof.
  assert (parseMarkdownSections content =
            omap sectionOfLine (split LF content)) as E.
  { unfold parseMarkdownSections. by rewrite sectionsLoop_omap. }
  split_and!; [done| |].
  - rewrite E. clear E. induction (split LF content) as [|l ls IH]; [done|].
    cbn [omap list_omap List.filter].
    pose proof (sectionOfLine_is_Some l) as Hl.
    destruct (sectionOfLine l) as [sec|];
      destruct (startsWith (lit "#") (trim l)); cbn [length].
    + by rewrite IH.
    + discriminate (proj1 Hl (mk_is_Some _ _ eq_refl)).
    + by destruct (proj2 Hl eq_refl) as [? [=]].
    + done.
  - intros line Hin Hs. apply sectionOfLine_is_Some in Hs as [sec Hs].
    exists sec. split; [done|]. rewrite E. apply list_elem_of_omap. eauto.
Qed.

Lemma sections_line_by_line_witness :
  exists sec,
    sectionOfLine (lit "# install") = Some sec /\
    sec ∈ parseMarkdownSections
            (unlines ["```sh"; "# install"; "npm i"; "```"]%string).
Proof.
  apply (proj2 (proj2 (sections_line_by_line
           (unlines ["```sh"; "# install"; "npm i"; "```"]%string)))).
  - apply (bool_decide_unpack _). reflexivity.
  - reflexivity.
Defined.

Lemma trimStart_spaces ws s :
  forallb isSpace ws = true -> trimStart (ws ++ s) = trimStart s.
Proof.
  induction ws as [|a ws IH]; [done|]. cbn [forallb app trimStart].
  intros [-> H]%andb_prop. by apply IH.
Qed.

Lemma trimStart_snoc l a :
  isSpace a = false -> trimStart (l ++ [a]) = trimStart l ++ [a].
Proof.
  intros Ha. induction l as [|b l IH]; cbn [app trimStart].
  - by rewrite Ha.
  - by destruct (isSpace b).
Qed.

Lemma trimEnd_cons a s :
  isSpace a = false -> trimEnd (a :: s) = a :: trimEnd s.
Proof.
  intros Ha. unfold trimEnd. cbn [rev].
  rewrite trimStart_snoc by done. by rewrite rev_app_distr.
Qed.

Lemma trimEnd_hashes n s :
  trimEnd (replicate n "#"%char ++ s) = replicate n "#"%char ++ trimEnd s.
Proof.
  induction n as [|n IH]; [done|]. cbn [replicate app].
  by rewrite trimEnd_cons, IH.
Qed.

Lemma reHashes_run n s :
  startsWith (lit "#") s = false ->
  exec reHashes (replicate (S n) "#"%char ++ s) =
    Some {| index := 0; matched := replicate (S n) "#"%char; groups := ∅;
            after := s |}.
Proof.
  intros Hs. unfold exec. erewrite execFrom_here.
  - do 2 f_equal. apply take_app_sub.
  - unfold matchHere, reHashes. cbn [replicate app]. regex_simpl.
    apply repGreedy_stop; [| |done].
    + apply Forall_forall. intros a Ha%elem_of_replicate. by destruct Ha as [-> _].
    + destruct s as [|b s]; [done|]. cbn in Hs.
      by rewrite andb_true_r in Hs.
Qed.

(** X10.  The level of a section is the number of hashes its line starts with,
    white space before them aside: any number of them, not only one to
    six. *)
Theorem level_counts_hashes ws n rest :
  forallb isSpace ws = true ->
  startsWith (lit "#") rest = false ->
  exists sec,
    sectionOfLine (ws ++ replicate (S n) "#"%char ++ rest) = Some sec /\
    level sec = S n.
Proof.
  intros Hws Hrest. unfold sectionOfLine, trim.
  rewrite trimStart_spaces by done.
  change (trimStart (replicate (S n) "#"%char ++ rest))
    with (replicate (S n) "#"%char ++ rest).
  rewrite trimEnd_hashes.
  assert (startsWith (lit "#") (trimEnd rest) = false) as Hr.
  { destruct (NoteFacts.trimEnd_prefix rest) as [post E].
    destruct (trimEnd rest) as [|b t]; [done|].
    rewrite E in Hrest. exact Hrest. }
  change (startsWith (lit "#") (replicate (S n) "#"%char ++ trimEnd rest))
    with true. cbn match.
  rewrite reHashes_run by done. eexists. split; [done|].
  cbn [level matched]. by rewrite length_replicate.
Qed.

Lemma level_counts_hashes_witness :
  exists sec,
    sectionOfLine (lit "  ####### Seven") = Some sec /\ level sec = 7%nat.
Proof.
  apply (level_counts_hashes (lit "  ") 6 (lit " Seven")); reflexivity.
Defined.

End ExtractorFacts.

(** ** The title and the sections of a loaded document *)

Module DocumentFacts.
Import JS RegExp RegExpFacts ContentLoader.

Lemma split_subset sep s piece a :
  piece ∈ split sep s -> a ∈ piece -> a ∈ s.
Proof.
  revert piece. induction s as [|c t IH]; intros piece; cbn [split].
  - intros ->%list_elem_of_singleton. by intros ?%elem_of_nil.
  - destruct (Ascii.eqb c sep).
    + intros [->|H]%elem_of_cons; [by intros ?%elem_of_nil|].
      intros Ha. apply elem_of_cons. right. by apply (IH piece).
    + destruct (split sep t) as [|l ls] eqn:E.
      * intros ->%list_elem_of_singleton. set_solver.
      * intros [->|H]%elem_of_cons.
        -- intros [->|Ha]%elem_of_cons; [set_solver|].
           apply elem_of_cons. right. apply (IH l); [set_solver|done].
        -- intros Ha. apply elem_of_cons. right. apply (IH piece); set_solver.
Qed.

Lemma split_app_sep sep l rest :
  sep ∉ l -> split sep (l ++ sep :: rest) = l :: split sep rest.
Proof.
  induction l as [|c l IH]; intros Hl; cbn [app split].
  - by rewrite Ascii.eqb_refl.
  - apply not_elem_of_cons in Hl as [Hc Hl].
    rewrite (proj2 (Ascii.eqb_neq c sep)) by done.
    by rewrite IH.
Qed.

Lemma sectionOfLine_no_hash line :
  "#"%char ∉ line -> sectionOfLine line = None.
Proof.
  intros H. unfold sectionOfLine.
  destruct (trim line) as [|a t] eqn:E; [done|].
  cbn [lit list_ascii_of_string startsWith].
  destruct (Ascii.eqb "#" a) eqn:Ea; [|done].
  apply Ascii.eqb_eq in Ea as <-. destruct H.
  apply NoteFacts.trim_subset. rewrite E. set_solver.
Qed.

Lemma sections_no_hash content :
  "#"%char ∉ content -> parseMarkdownSections content = [].
Proof.
  intros H. unfold parseMarkdownSections.
  rewrite ExtractorFacts.sectionsLoop_omap. cbn [app].
  assert (Forall (fun line => "#"%char ∉ line) (split LF content)) as Hl.
  { apply Forall_forall. intros line Hin Hh. apply H.
    by apply (split_subset LF content line). }
  induction Hl as [|l ls Hl _ IH]; [done|].
  cbn [omap list_omap]. by rewrite sectionOfLine_no_hash.
Qed.

Lemma reFirstHeading_no_hash content :
  "#"%char ∉ content -> exec reFirstHeading content = None.
Proof.
  intros H. apply BareHeadingFacts.execFrom_nowhere.
  intros u1 u2 q ->. unfold matchHere, reFirstHeading. regex_simpl.
  destruct (match q with None => true | Some a => _ end); [|done].
  destruct u2 as [|a u2]; [done|].
  rewrite isChar_false; [done|]. intros ->. set_solver.
Qed.

Lemma reFirstHeading_first_line ws T post :
  ws <> [] -> forallb isSpace ws = true ->
  forallb dot T = true ->
  match T with a :: _ => negb (isSpace a) | [] => false end = true ->
  match post with [] => true | a :: _ => isLineTerminator a end = true ->
  exists mr,
    exec reFirstHeading ("#"%char :: ws ++ T ++ post) = Some mr /\
    groups mr !! 1%nat = Some T.
Proof.
  intros Hne Hws HT Ht0 Hpost.
  destruct ws as [|w0 ws]; [done|]. destruct T as [|t0 T]; [done|].
  cbn [forallb] in Hws, HT.
  apply andb_prop in Hws as [Hw0 Hws]. apply andb_prop in HT as [Hd0 HT].
  apply negb_true_iff in Ht0.
  rewrite forallb_forall in Hws, HT.
  assert (matchHere reFirstHeading None
            ("#"%char :: (w0 :: ws) ++ (t0 :: T) ++ post) =
          Some (post, <[1%nat := t0 :: T]> ∅)) as Hm.
  { unfold matchHere, reFirstHeading. cbn [app]. regex_simpl.
    rewrite Hw0.
    apply repGreedy_stop.
    - apply Forall_forall. intros a Ha%list_elem_of_In. by apply Hws.
    - done.
    - regex_simpl. rewrite Hd0.
      apply repGreedy_stop.
      + apply Forall_forall. intros a Ha%list_elem_of_In. by apply HT.
      + destruct post as [|a post]; [done|].
        unfold dot. by rewrite Hpost.
      + regex_simpl.
        assert (take (length (t0 :: T ++ post) - length post)
                  (t0 :: T ++ post) = t0 :: T) as ->
          by apply (take_app_sub (t0 :: T)).
        destruct post as [|a post]; [done|].
        cbn [andb]. by rewrite Hpost. }
  unfold exec. rewrite (execFrom_here _ _ _ _ _ _ Hm).
  eexists. split; [done|]. cbn [groups]. apply lookup_insert_eq.
Qed.

(** X11.  A stored text that starts with a hash, white space and a first line
    [T] is loaded with the title [T]: the text of the first line from its
    first character that is not white space to its end, white space at
    the end included.  The content is the stored text and the sections
    are those the extractor finds in it. *)
Theorem loaded_title_is_first_heading
    (contentMap : gmap jsstring jsstring) contentId ws T post :
  contentMap !! contentId = Some ("#"%char :: ws ++ T ++ post) ->
  ws <> [] -> forallb isSpace ws = true ->
  forallb dot T = true ->
  match T with a :: _ => negb (isSpace a) | [] => false end = true ->
  match post with [] => true | a :: _ => isLineTerminator a end = true ->
  loadMarkdownContent contentMap contentId =
    {| doc_title := T;
       doc_content := "#"%char :: ws ++ T ++ post;
       doc_sections := parseMarkdownSections ("#"%char :: ws ++ T ++ post) |}.
Proof.
  intros Hc Hne Hws HT Ht0 Hpost.
  unfold loadMarkdownContent, tryLoad, getProp. rewrite Hc.
  cbn [truthy negb].
  destruct (reFirstHeading_first_line ws T post) as (mr & -> & ->); done.
Qed.

Lemma loaded_title_is_first_heading_witness :
  loadMarkdownContent
    {[ lit "react" := unlines ["#  React Guide "; "text"]%string ]}
    (lit "react") =
    {| doc_title := lit "React Guide ";
       doc_content := unlines ["#  React Guide "; "text"]%string;
       doc_sections :=
         parseMarkdownSections (unlines ["#  React Guide "; "text"]%string) |}.
Proof.
  apply (loaded_title_is_first_heading
           {[ lit "react" := unlines ["#  React Guide "; "text"]%string ]}
           (lit "react") (lit "  ") (lit "React Guide ")
           (LF :: lit "text")); try reflexivity.
  discriminate.
Defined.

(** X12.  A stored text that is not empty and holds no hash is loaded as it
    is, with the title [Untitled Document] and no sections. *)
Theorem document_without_headings
    (contentMap : gmap jsstring jsstring) contentId content :
  contentMap !! contentId = Some content ->
  content <> [] -> "#"%char ∉ content ->
  loadMarkdownContent contentMap contentId =
    {| doc_title := lit "Untitled Document";
       doc_content := content;
       doc_sections := [] |}.
Proof.
  intros Hc Hne Hh.
  unfold loadMarkdownContent, tryLoad, getProp. rewrite Hc.
  destruct content as [|c0 content]; [done|]. cbn [truthy negb].
  by rewrite reFirstHeading_no_hash, sections_no_hash.
Qed.

Lemma document_without_headings_witness :
  loadMarkdownContent {[ lit "notes" := lit "just text" ]} (lit "notes") =
    {| doc_title := lit "Untitled Document";
       doc_content := lit "just text";
       doc_sections := [] |}.
Proof.
  apply (document_without_headings {[ lit "notes" := lit "just text" ]}
           (lit "notes") (lit "just text")).
  - reflexivity.
  - discriminate.
  - apply (bool_decide_unpack _). reflexivity.
Defined.

Lemma fallback_has_section contentId :
  parseMarkdownSections (doc_content (fallbackDocument contentId)) <> [].
Proof.
  unfold fallbackDocument, parseMarkdownSections. cbn [doc_content].
  change ([LF; LF] ++ ?x) with (LF :: LF :: x).
  rewrite split_app_sep
    by (apply (bool_decide_unpack _); reflexivity).
  rewrite ExtractorFacts.sectionsLoop_omap. cbn [app omap list_omap].
  assert (exists sec, sectionOfLine (lit "# Document Not Found") = Some sec)
    as [sec ->] by (by eexists; vm_compute).
  done.
Qed.

(** X13.  The placeholder document is returned exactly when the content map
    has no text for the id or has the empty text for it. *)
Theorem placeholder_iff (contentMap : gmap jsstring jsstring) contentId :
  loadMarkdownContent contentMap contentId = fallbackDocument contentId <->
  contentMap !! contentId = None \/ contentMap !! contentId = Some [].
Proof.
  unfold loadMarkdownContent, tryLoad, getProp.
  destruct (contentMap !! contentId) as [content|] eqn:Hc.
  - destruct content as [|c0 content]; [by split; eauto|].
    cbn [truthy negb]. split; [|by intros [?|?]].
    intros E. pose proof (fallback_has_section contentId) as Hs.
    rewrite <- E in Hs at 1. cbn [doc_content] in Hs.
    apply (f_equal doc_sections) in E. cbn [doc_sections] in E.
    by rewrite E in Hs.
  - split; [by left|]. intros _. by destruct (bool_decide _).
Qed.

End DocumentFacts.

(** ** The renderer: which lines vanish, unclosed fences, keys *)

Module RendererFacts.
Import JS MarkdownRenderer Fence FenceFacts Keys.

Lemma lit_inj s1 s2 : lit s1 = lit s2 -> s1 = s2.
Proof.
  intros H. rewrite <- (string_of_list_ascii_of_string s1),
    <- (string_of_list_ascii_of_string s2).
  unfold lit in H. by rewrite H.
Qed.

Lemma string_of_uint_inj d1 d2 :
  d1 <> Decimal.Nil -> d2 <> Decimal.Nil ->
  NilZero.string_of_uint d1 = NilZero.string_of_uint d2 -> d1 = d2.
Proof.
  intros H1 H2 H. apply (f_equal NilZero.uint_of_string) in H.
  rewrite !NilZero.usu in H by done. by injection H.
Qed.

(** Different numbers are written differently. *)
Lemma natToString_inj n1 n2 : natToString n1 = natToString n2 -> n1 = n2.
Proof.
  intros H%lit_inj. apply DecimalNat.Unsigned.to_uint_inj.
  apply string_of_uint_inj; [| |done].
  - pose proof (DecimalNat.Unsigned.to_of (Nat.to_uint n1)) as E.
    rewrite DecimalNat.Unsigned.of_to in E. rewrite E.
    apply DecimalFacts.unorm_nonnil.
  - pose proof (DecimalNat.Unsigned.to_of (Nat.to_uint n2)) as E.
    rewrite DecimalNat.Unsigned.of_to in E. rewrite E.
    apply DecimalFacts.unorm_nonnil.
Qed.

Lemma numToString_inj n1 n2 : numToString n1 = numToString n2 -> n1 = n2.
Proof.
  intros H%lit_inj. apply DecimalN.Unsigned.to_uint_inj.
  apply string_of_uint_inj; [| |done].
  - pose proof (DecimalN.Unsigned.to_of (N.to_uint n1)) as E.
    rewrite DecimalN.Unsigned.of_to in E. rewrite E.
    apply DecimalFacts.unorm_nonnil.
  - pose proof (DecimalN.Unsigned.to_of (N.to_uint n2)) as E.
    rewrite DecimalN.Unsigned.of_to in E. rewrite E.
    apply DecimalFacts.unorm_nonnil.
Qed.

(** A number starts with a digit. *)
Lemma natToString_digit n :
  exists d t, natToString n = d :: t /\ (48 <= code d <= 57)%N.
Proof.
  unfold natToString, NilZero.string_of_uint.
  destruct (Nat.to_uint n) as [|d|d|d|d|d|d|d|d|d|d]; cbn;
    eexists _, _; (split; [reflexivity|]); vm_compute; split; congruence.
Qed.

Lemma codeId_inj n1 n2 : codeId n1 = codeId n2 -> n1 = n2.
Proof. unfold codeId. intros H%app_inv_head. by apply natToString_inj. Qed.

Lemma codeId_not_number n k : codeId n <> natToString k.
Proof.
  destruct (natToString_digit k) as (d & t & -> & Hd).
  unfold codeId. cbn [lit list_ascii_of_string app]. intros [= <- _].
  vm_compute in Hd. destruct Hd as [_ Hd]. by apply Hd.
Qed.

(** *** Lines that yield no element *)

Lemma space_first c p a t :
  isSpace a = true -> isSpace c = false -> startsWith (c :: p) (a :: t) = false.
Proof.
  intros Ha Hc. cbn [startsWith]. destruct (Ascii.eqb c a) eqn:E; [|done].
  apply Ascii.eqb_eq in E. congruence.
Qed.

Lemma trim_nil_first a t : trim (a :: t) = [] -> isSpace a = true.
Proof.
  destruct (isSpace a) eqn:Ha; [done|]. unfold trim.
  rewrite HeadingFacts.trimStart_id by done.
  by rewrite ExtractorFacts.trimEnd_cons.
Qed.

Lemma blank_line_dropped bm i line :
  trim line = [] -> elementOfLine bm i line = None.
Proof.
  intros H. unfold elementOfLine. rewrite H.
  destruct line as [|a t]; [done|].
  apply trim_nil_first in H.
  cbn [lit list_ascii_of_string].
  by rewrite !space_first.
Qed.

(** The element of a line, when the line is read outside a code block
    and is no delimiter: there is none in two cases only. *)
Lemma elementOfLine_None bm i line :
  elementOfLine bm i line = None <->
  trim line = [] \/
  (startsWith (lit "- **") line = true /\
   RegExp.exec reDefinition line = None).
Proof.
  split.
  - unfold elementOfLine.
    destruct (startsWith (lit "# ") line); [done|].
    destruct (startsWith (lit "## ") line); [done|].
    destruct (startsWith (lit "### ") line); [done|].
    destruct (startsWith (lit "- **") line).
    { destruct (RegExp.exec reDefinition line); [done|]. by right. }
    destruct (startsWith (lit "- ") line); [done|].
    destruct (bool_decide _); [done|].
    destruct (_ && _); [done|].
    destruct (trim line); [by left|done].
  - intros [H|[H1 H2]].
    + by apply blank_line_dropped.
    + by apply bold_bullet_dropped.
Qed.

(** X14.  A line that follows lines whose fences are all closed adds no
    element to what the renderer yields in three cases only: the line is
    a delimiter, which opens a code block; the line holds nothing but
    white space; or the line starts with [- **] and does not have the
    form of a definition. *)
Theorem dropped_lines bm pre line :
  Nat.even (fenceCount pre) = true ->
  parseLines bm (pre ++ [line]) = parseLines bm pre <->
  isFence line = true \/
  trim line = [] \/
  (startsWith (lit "- **") line = true /\
   RegExp.exec reDefinition line = None).
Proof.
  intros Hpre. unfold parseLines.
  rewrite run_app. cbn [run]. set (st := run bm initial 0 pre).
  destruct (run_fences bm initial 0 pre) as [Hin _]. fold st in Hin.
  cbn in Hin. rewrite <- Nat.negb_even, Hpre in Hin. cbn in Hin.
  destruct (isFence line) eqn:El.
  - rewrite (step_open bm st) by done. cbn [elements]. by split; [left|].
  - rewrite (step_outside bm st) by done.
    pose proof (elementOfLine_None bm (0 + length pre) line) as [H1 H2].
    destruct (elementOfLine bm (0 + length pre) line) as [e|].
    + cbn [push elements]. split.
      * intros E%(f_equal length). rewrite length_app in E. cbn in E. lia.
      * intros [?|H]; [done|]. by specialize (H2 H).
    + split; [|done]. intros _. right. by apply H1.
Qed.

Lemma dropped_lines_witness :
  parseLines [] [lit "intro"; lit "```js"] = parseLines [] [lit "intro"] /\
  parseLines [] [lit "intro"; lit "- **List:** items"] =
    parseLines [] [lit "intro"].
Proof.
  split.
  - apply (proj2 (dropped_lines [] [lit "intro"] (lit "```js") eq_refl)).
    left. reflexivity.
  - apply (proj2 (dropped_lines [] [lit "intro"] (lit "- **List:** items")
                   eq_refl)).
    right. right. split; reflexivity.
Defined.

(** A bullet of nodejs.md, outside any fence: a term in bold with the
    colon behind it and nothing after the colon.  The renderer yields no
    element for it. *)
Lemma label_bullet_dropped bm :
  parseMarkdown bm (lit "- **Choose SQL when**:") = [].
Proof. by vm_compute. Qed.

(** *** A fence that is never closed *)

(** X15.  When the last opening delimiter of a text has no closing delimiter
    behind it, the renderer yields nothing for it and for the lines
    behind it: the elements are those of the lines before it. *)
Theorem unclosed_fence bm pre opening rest :
  Nat.even (fenceCount pre) = true ->
  isFence opening = true ->
  forallb (fun line => negb (isFence line)) rest = true ->
  parseLines bm (pre ++ opening :: rest) = parseLines bm pre.
Proof.
  intros Hpre Ho Hr. unfold parseLines.
  rewrite run_app. cbn [run]. set (st := run bm initial 0 pre).
  destruct (run_fences bm initial 0 pre) as [Hin _]. fold st in Hin.
  cbn in Hin. rewrite <- Nat.negb_even, Hpre in Hin. cbn in Hin.
  rewrite (step_open bm st) by done.
  by rewrite (run_interior bm _ _ rest).
Qed.

Lemma unclosed_fence_witness :
  parseLines [] [lit "intro"; lit "```js"; lit "let x = 1;"; lit "# end"] =
    [P 0 (lit "intro")].
Proof.
  apply (unclosed_fence [] [lit "intro"] (lit "```js")
           [lit "let x = 1;"; lit "# end"]); reflexivity.
Defined.

(** *** Code blocks and keys *)

Lemma elementOfLine_key bm i line e :
  elementOfLine bm i line = Some e ->
  blockIdOf e = None /\ keyOf e = natToString i.
Proof.
  unfold elementOfLine.
  repeat match goal with
         | |- context [if ?b then _ else _] => destruct b
         | |- context [match RegExp.exec ?r ?l with _ => _ end] =>
             destruct (RegExp.exec r l)
         end; by intros [= <-].
Qed.

Lemma run_blockIds bm st i lines :
  omap blockIdOf (elements (run bm st i lines)) =
    omap blockIdOf (elements st) ++
    map codeId
      (seq (codeBlockId st)
         (Nat.div2 (fenceCount lines + if inCodeBlock st then 1 else 0))).
Proof.
  revert st i. induction lines as [|l lines IH]; intros st i.
  - cbn [run]. unfold fenceCount. cbn [List.filter length Nat.add].
    destruct (inCodeBlock st); cbn; by rewrite app_nil_r.
  - cbn [run]. rewrite IH. unfold fenceCount. cbn [List.filter].
    destruct (isFence l) eqn:El; destruct (inCodeBlock st) eqn:Ein;
      cbn [length].
    + rewrite step_close by done.
      cbn [elements inCodeBlock codeBlockId].
      rewrite omap_app, <- app_assoc. f_equal.
      rewrite Nat.add_0_r, Nat.add_1_r. cbn [Nat.div2 seq map]. done.
    + rewrite step_open by done.
      cbn [elements inCodeBlock codeBlockId].
      by rewrite Nat.add_0_r, Nat.add_1_r.
    + rewrite step_inside by done. done.
    + rewrite step_outside by done.
      destruct (elementOfLine bm i l) as [e|] eqn:Ee; [|by rewrite Ein].
      cbn [push elements inCodeBlock codeBlockId]. rewrite Ein.
      rewrite omap_app. cbn [omap list_omap].
      destruct (elementOfLine_key _ _ _ _ Ee) as [-> _].
      by rewrite app_nil_r.
Qed.

(** X16.  The renderer yields one code block for every two delimiter lines,
    and the ids of the code blocks are [code-0], [code-1], ... in the
    order of the blocks. *)
Theorem code_blocks_numbered bm lines :
  omap blockIdOf (parseLines bm lines) =
    map codeId (seq 0 (Nat.div2 (fenceCount lines))).
Proof.
  unfold parseLines. rewrite run_blockIds. cbn. by rewrite Nat.add_0_r.
Qed.

Lemma keysBelow_mono n i n' i' es :
  (n <= n')%nat -> (i <= i')%nat -> keysBelow n i es -> keysBelow n' i' es.
Proof.
  intros Hn Hi H. eapply Forall_impl; [exact H|]. cbv beta.
  intros e [(k & Hk & E)|(k & Hk & E)]; [left|right]; exists k; split;
    (lia || done).
Qed.

Lemma keys_snoc n i es e :
  NoDup (map keyOf es) -> keysBelow n i es ->
  keyOf e = codeId n \/ keyOf e = natToString i ->
  NoDup (map keyOf (es ++ [e])).
Proof.
  intros Hnd Hk He. rewrite map_app. apply NoDup_app. split_and!; [done| |].
  - intros x Hx. cbn. rewrite list_elem_of_singleton. intros ->.
    apply list_elem_of_fmap in Hx as (e' & Hx & Hin).
    unfold keysBelow in Hk. rewrite Forall_forall in Hk.
    destruct (Hk e' Hin) as [(k & Hlt & E)|(k & Hlt & E)];
      destruct He as [He|He]; rewrite He, E in Hx.
    + apply codeId_inj in Hx. lia.
    + symmetry in Hx. by apply codeId_not_number in Hx.
    + by apply codeId_not_number in Hx.
    + apply natToString_inj in Hx. lia.
  - cbn. apply NoDup_singleton.
Qed.

Lemma step_keys bm st i line :
  NoDup (map keyOf (elements st)) ->
  keysBelow (codeBlockId st) i (elements st) ->
  NoDup (map keyOf (elements (step bm st i line))) /\
  keysBelow (codeBlockId (step bm st i line)) (S i)
    (elements (step bm st i line)).
Proof.
  intros Hnd Hk.
  destruct (isFence line) eqn:El, (inCodeBlock st) eqn:Ein.
  - rewrite step_close by done. cbn [elements codeBlockId]. split.
    + eapply keys_snoc; [done..|]. by left.
    + apply Forall_app. split.
      * eapply keysBelow_mono; [| |done]; lia.
      * apply Forall_singleton. left. exists (codeBlockId st).
        split; [lia|done].
  - rewrite step_open by done. cbn [elements codeBlockId].
    split; [done|]. eapply keysBelow_mono; [| |done]; lia.
  - rewrite step_inside by done. cbn [elements codeBlockId].
    split; [done|]. eapply keysBelow_mono; [| |done]; lia.
  - rewrite step_outside by done.
    destruct (elementOfLine bm i line) as [e|] eqn:Ee.
    + destruct (elementOfLine_key _ _ _ _ Ee) as [_ Hkey].
      cbn [push elements codeBlockId]. split.
      * eapply keys_snoc; [done..|]. by right.
      * apply Forall_app. split.
        -- eapply keysBelow_mono; [| |done]; lia.
        -- apply Forall_singleton. right. exists i. split; [lia|done].
    + split; [done|]. eapply keysBelow_mono; [| |done]; lia.
Qed.

Lemma run_keys bm st i lines :
  NoDup (map keyOf (elements st)) ->
  keysBelow (codeBlockId st) i (elements st) ->
  NoDup (map keyOf (elements (run bm st i lines))).
Proof.
  revert st i. induction lines as [|l lines IH]; intros st i Hnd Hk; [done|].
  cbn [run]. destruct (step_keys bm st i l Hnd Hk) as [H1 H2].
  by apply IH.
Qed.

(** X17.  No two elements the renderer yields for a text have the same key. *)
Theorem element_keys_distinct bm lines :
  NoDup (map keyOf (parseLines bm lines)).
Proof.
  unfold parseLines. apply run_keys; [constructor|]. by apply Forall_nil.
Qed.

(** *** Definitions, rules and captions *)










End RendererFacts.

(** ** The search panel: order and sections of the results *)

Module ResultFacts.
Import JS RegExp SearchPanel Snippet Cursor.

Section AnyMarker.
Context (mark : jsstring -> option (jsstring -> jsstring)).

Lemma sectionAt_snoc pre l :
  sectionAt (pre ++ [l]) =
    if isHeader l
    then {| id := MarkdownRenderer.h2Id l;
            title := MarkdownRenderer.h2Title l |}
    else sectionAt pre.
Proof.
  unfold sectionAt. rewrite List.filter_app. cbn [List.filter].
  destruct (isHeader l); [by rewrite last_snoc|by rewrite app_nil_r].
Qed.


Lemma forEach_order q lines :
  forall results cur index results' cur',
  forEach mark q (results, cur) index lines = Some (results', cur') ->
  Forall (fun r => (line r <= index)%nat) results ->
  (forall i j r1 r2, (i < j)%nat -> results !! i = Some r1 ->
     results !! j = Some r2 -> (line r1 < line r2)%nat) ->
  forall i j r1 r2, (i < j)%nat -> results' !! i = Some r1 ->
    results' !! j = Some r2 -> (line r1 < line r2)%nat.
Proof.
  induction lines as [|l lines IH]; intros results cur index results' cur'.
  - by intros [= <- <-].
  - cbn [forEach].
    destruct (visit mark q (results, cur) index l) as [[rs1 c1]|] eqn:Ev;
      [|done].
    cbn [mbind option_bind]. intros E Hle Hs.
    apply (IH _ _ _ _ _ E); unfold visit in Ev.
    + destruct (exec reHeader l).
      { injection Ev as <- <-.
        eapply Forall_impl; [exact Hle|]. cbv beta. intros; lia. }
      destruct (includes _ _).
      2:{ injection Ev as <- <-.
          eapply Forall_impl; [exact Hle|]. cbv beta. intros; lia. }
      destruct (snippetOf mark q l); [|done]. cbn in Ev.
      injection Ev as <- <-. apply Forall_app. split.
      * eapply Forall_impl; [exact Hle|]. cbv beta. intros; lia.
      * apply Forall_singleton. cbn. lia.
    + destruct (exec reHeader l); [by injection Ev as <- <-|].
      destruct (includes _ _); [|by injection Ev as <- <-].
      destruct (snippetOf mark q l); [|done]. cbn in Ev.
      injection Ev as <- <-.
      intros i j r1 r2 Hij H1 H2.
      apply lookup_snoc_Some in H2 as [[Hj H2]|[Hj <-]].
      * apply lookup_snoc_Some in H1 as [[Hi H1]|[Hi <-]]; [|lia].
        by apply (Hs i j).
      * apply lookup_snoc_Some in H1 as [[Hi H1]|[Hi <-]]; [|lia].
        rewrite Forall_forall in Hle. cbn.
        assert (line r1 <= index)%nat; [|lia].
        apply Hle. by eapply list_elem_of_lookup_2.
Qed.

(** X21.  The results of a search are in the order of the lines: further down
    the list the line number is larger, so no line has two results. *)
Theorem results_in_line_order content q rs :
  searchResults mark content q = Some rs ->
  forall i j r1 r2,
    (i < j)%nat -> rs !! i = Some r1 -> rs !! j = Some r2 ->
    (line r1 < line r2)%nat.
Proof.
  unfold searchResults. destruct (negb _).
  { intros [= <-] i j r1 r2 _ H. by rewrite lookup_nil in H. }
  destruct (forEach _ _ _ _ _) as [[results cur]|] eqn:E; [|done].
  cbn. intros [= <-] i j r1 r2 Hij H1 H2.
  apply lookup_take_Some in H1 as [H1 _].
  apply lookup_take_Some in H2 as [H2 _].
  eapply (forEach_order _ _ _ _ _ _ _ E); [by apply Forall_nil| |done..].
  intros ? ? ? ? _ H. by rewrite lookup_nil in H.
Qed.



End AnyMarker.

Lemma results_in_line_order_witness :
  exists rs,
    searchResults markPattern sampleDocument (lit "e") = Some rs /\
    forall i j r1 r2,
      (i < j)%nat -> rs !! i = Some r1 -> rs !! j = Some r2 ->
      (line r1 < line r2)%nat.
Proof.
  eexists. split; [reflexivity|].
  apply (results_in_line_order markPattern sampleDocument (lit "e")).
  reflexivity.
Defined.


(** *** The length of a snippet before highlighting *)

Lemma indexOfFrom_lower q s i : 0 <= i -> -1 <= indexOfFrom q s i.
Proof.
  revert i. induction s as [|a s IH]; intros i Hi; cbn [indexOfFrom].
  - destruct (startsWith q []); lia.
  - destruct (startsWith q (a :: s)); [lia|]. apply IH. lia.
Qed.

Lemma length_slice s b e :
  0 <= b -> 0 <= e -> (Z.of_nat (length (slice s b e)) <= Z.max 0 (e - b)).
Proof.
  intros Hb He. unfold slice.
  destruct (Z.ltb_spec b 0); [lia|]. destruct (Z.ltb_spec e 0); [lia|].
  rewrite length_take, length_drop. lia.
Qed.

(** X23.  The part of a line shown in a snippet is at most 60 characters
    longer than the query, the two ellipses aside. *)
Theorem window_length q line :
  (length (window q line) <= length q + 66)%nat.
Proof.
  unfold window.
  pose proof (indexOfFrom_lower (toLowerCase q) (toLowerCase line) 0
                ltac:(lia)) as Hi.
  fold (indexOf (toLowerCase q) (toLowerCase line)) in Hi.
  set (qi := indexOf (toLowerCase q) (toLowerCase line)) in *.
  set (start := Z.max 0 (qi - 30)).
  set (end_ := Z.min (Z.of_nat (length line))
                 (qi + Z.of_nat (length q) + 30)).
  pose proof (length_slice line start end_ ltac:(lia) ltac:(lia)) as Hs.
  destruct (0 <? start), (end_ <? Z.of_nat (length line));
    rewrite ?length_app; cbn [lit list_ascii_of_string length]; lia.
Qed.

End ResultFacts.

(** ** Notes, bookmarks and the list of bookmarks *)

Module NoteListFacts.
Import JS NotesPanel Notes NotesList.

Lemma deleteNote_fresh notes id :
  Forall (fun n => NotesPanel.id n <> id) notes -> deleteNote notes id = notes.
Proof.
  induction 1 as [|n notes Hn _ IH]; [done|].
  unfold deleteNote in *. cbn [List.filter].
  by rewrite bool_decide_eq_false_2, IH.
Qed.

(** X24.  Deleting the note that was just added, when its id is not the id of
    an older note, gives back the notes there were. *)
Theorem delete_after_add (clock : Clock) (p : Panel) :
  canSubmit (newNote p) = true ->
  Forall (fun n => NotesPanel.id n <> numToString (now clock)) (notes p) ->
  deleteNote (notes (addNote clock p)) (numToString (now clock)) = notes p.
Proof.
  intros Hs Hf. unfold addNote. fold (canSubmit (newNote p)). rewrite Hs.
  cbn [notes]. unfold deleteNote. cbn [List.filter NotesPanel.id].
  rewrite bool_decide_eq_true_2 by done. by apply deleteNote_fresh.
Qed.

Lemma delete_after_add_witness :
  deleteNote
    (notes (addNote {| now := 1700000000000; created := 1700000000000;
                       updated := 1700000000000 |}
              {| notes := [];
                 newNote := {| new_title := lit "t"; new_content := lit "c";
                               new_section := []; new_tags := [] |};
                 showNewNoteForm := true |}))
    (lit "1700000000000") = [].
Proof.
  apply (delete_after_add
           {| now := 1700000000000; created := 1700000000000;
              updated := 1700000000000 |}
           {| notes := [];
              newNote := {| new_title := lit "t"; new_content := lit "c";
                            new_section := []; new_tags := [] |};
              showNewNoteForm := true |}).
  - reflexivity.
  - constructor.
Defined.

(** X25.  Two notes added one after the other get their ids from the clock.
    When the two readings differ, deleting the second note leaves the
    first one in place; when they are the same, the two notes have the
    same id and deleting one deletes both. *)
Theorem notes_deleted_by_timestamp (c1 c2 : Clock) (p : Panel)
    (form : NewNote) :
  canSubmit (newNote p) = true -> canSubmit form = true ->
  exists n1 n2,
    notes (addNote c2 (withForm (addNote c1 p) form)) =
      n2 :: n1 :: notes p /\
    NotesPanel.id n1 = numToString (now c1) /\
    NotesPanel.id n2 = numToString (now c2) /\
    (now c1 <> now c2 ->
       deleteNote (n2 :: n1 :: notes p) (NotesPanel.id n2) =
         n1 :: deleteNote (notes p) (NotesPanel.id n2)) /\
    (now c1 = now c2 ->
       deleteNote (n2 :: n1 :: notes p) (NotesPanel.id n2) =
         deleteNote (notes p) (NotesPanel.id n2)).
Proof.
  intros H1 H2. unfold addNote at 2. fold (canSubmit (newNote p)).
  rewrite H1. unfold withForm. cbn [notes].
  unfold addNote. cbn [newNote]. fold (canSubmit form). rewrite H2.
  cbn [notes]. eexists _, _. split; [reflexivity|].
  cbn [NotesPanel.id]. split_and!; [done..| |].
  - intros Hne. unfold deleteNote. cbn [List.filter NotesPanel.id].
    rewrite bool_decide_eq_true_2 by done.
    rewrite bool_decide_eq_false_2; [done|].
    intros E%RendererFacts.numToString_inj. done.
  - intros ->. unfold deleteNote. cbn [List.filter NotesPanel.id].
    by rewrite !bool_decide_eq_true_2.
Qed.

Lemma notes_deleted_by_timestamp_witness :
  exists n1 n2,
    notes (addNote {| now := 7; created := 7; updated := 7 |}
             (withForm
                (addNote {| now := 7; created := 7; updated := 7 |}
                   {| notes := [];
                      newNote := {| new_title := lit "a";
                                    new_content := lit "b";
                                    new_section := []; new_tags := [] |};
                      showNewNoteForm := true |})
                {| new_title := lit "c"; new_content := lit "d";
                   new_section := []; new_tags := [] |})) =
      [n2; n1] /\
    deleteNote [n2; n1] (NotesPanel.id n2) = [].
Proof.
  destruct (notes_deleted_by_timestamp
              {| now := 7; created := 7; updated := 7 |}
              {| now := 7; created := 7; updated := 7 |}
              {| notes := [];
                 newNote := {| new_title := lit "a"; new_content := lit "b";
                               new_section := []; new_tags := [] |};
                 showNewNoteForm := true |}
              {| new_title := lit "c"; new_content := lit "d";
                 new_section := []; new_tags := [] |}
              eq_refl eq_refl) as (n1 & n2 & E & _ & _ & _ & H).
  exists n1, n2. split; [exact E|]. exact (H eq_refl).
Defined.

End NoteListFacts.

Module BookmarkListFacts.
Import JS App Bookmarks BookmarkFacts.

Lemma toggleBookmark_elem prev x y :
  y ∈ toggleBookmark prev x <->
  if bool_decide (y = x) then x ∉ prev else y ∈ prev.
Proof.
  unfold toggleBookmark. fold (others x prev).
  destruct (decide (x ∈ prev)) as [H|H].
  - rewrite (bool_decide_eq_true_2 _ H), elem_of_others.
    destruct (decide (y = x)) as [->|Hy].
    + rewrite bool_decide_eq_true_2 by done. naive_solver.
    + rewrite bool_decide_eq_false_2 by done. naive_solver.
  - rewrite (bool_decide_eq_false_2 _ H), elem_of_app, list_elem_of_singleton.
    destruct (decide (y = x)) as [->|Hy].
    + rewrite bool_decide_eq_true_2 by done. naive_solver.
    + rewrite bool_decide_eq_false_2 by done. naive_solver.
Qed.

Lemma toggleBookmark_NoDup prev x :
  NoDup prev -> NoDup (toggleBookmark prev x).
Proof.
  intros Hnd. unfold toggleBookmark.
  destruct (decide (x ∈ prev)) as [H|H].
  - rewrite (bool_decide_eq_true_2 _ H).
    apply NoDup_ListNoDup, List.NoDup_filter. by apply NoDup_ListNoDup.
  - rewrite (bool_decide_eq_false_2 _ H).
    apply NoDup_app. split_and!; [done| |apply NoDup_singleton].
    intros y Hy ->%list_elem_of_singleton. done.
Qed.

Lemma toggles_from prev ids x :
  NoDup prev ->
  NoDup (fold_left toggleBookmark ids prev) /\
  (x ∈ fold_left toggleBookmark ids prev <->
   xorb (bool_decide (x ∈ prev))
        (Nat.odd (length (List.filter (fun y => bool_decide (y = x)) ids)))
     = true).
Proof.
  revert prev. induction ids as [|y ids IH]; intros prev Hnd.
  - cbn. split; [done|]. rewrite xorb_false_r.
    by rewrite bool_decide_eq_true.
  - cbn [fold_left List.filter].
    destruct (IH (toggleBookmark prev y) (toggleBookmark_NoDup _ _ Hnd))
      as [H1 H2].
    split; [done|]. rewrite H2. clear H1 H2 IH.
    assert (bool_decide (x ∈ toggleBookmark prev y) =
            if bool_decide (y = x) then negb (bool_decide (x ∈ prev))
            else bool_decide (x ∈ prev)) as ->.
    { pose proof (toggleBookmark_elem prev y x) as Ht.
      destruct (decide (x = y)) as [->|Hxy].
      - rewrite (bool_decide_eq_true_2 (y = y)) in * by done.
        destruct (decide (y ∈ prev)) as [Hp|Hp].
        + rewrite (bool_decide_eq_true_2 _ Hp). cbn.
          apply bool_decide_eq_false_2. naive_solver.
        + rewrite (bool_decide_eq_false_2 _ Hp). cbn.
          apply bool_decide_eq_true_2. naive_solver.
      - rewrite (bool_decide_eq_false_2 (y = x)) by done.
        rewrite (bool_decide_eq_false_2 (x = y)) in Ht by done.
        by apply bool_decide_ext. }
    destruct (bool_decide (y = x)); cbn [length]; [|done].
    rewrite Nat.odd_succ, <- Nat.negb_odd.
    by destruct (bool_decide (x ∈ prev)), (Nat.odd _).
Qed.

(** X26.  Starting without bookmarks, after any sequence of toggles the list
    of bookmarks holds no id twice, and it holds an id exactly when the
    id was toggled an odd number of times. *)
Theorem bookmarks_after_toggles ids x :
  NoDup (fold_left toggleBookmark ids []) /\
  (x ∈ fold_left toggleBookmark ids [] <->
   Nat.odd (length (List.filter (fun y => bool_decide (y = x)) ids)) = true).
Proof.
  destruct (toggles_from [] ids x (NoDup_nil_2)) as [H1 H2].
  split; [done|]. rewrite H2.
  by rewrite bool_decide_eq_false_2 by apply not_elem_of_nil.
Qed.

End BookmarkListFacts.

Module TableOfContentsFacts.
Import JS TableOfContents.

Lemma findSection_Some sections b :
  b ∈ map ContentLoader.id sections ->
  exists sec, findSection sections b = Some sec /\ sec ∈ sections /\
              ContentLoader.id sec = b.
Proof.
  intros (sec & -> & Hin)%list_elem_of_fmap. unfold findSection.
  destruct (List.find _ sections) as [s|] eqn:E.
  - apply List.find_some in E as [Hs Hid].
    apply bool_decide_eq_true in Hid.
    exists s. by rewrite <- list_elem_of_In in Hs.
  - apply List.find_none with (x := sec) in E;
      [|by apply list_elem_of_In].
    by rewrite bool_decide_eq_true_2 in E.
Qed.

Lemma findSection_None sections b :
  b ∉ map ContentLoader.id sections -> findSection sections b = None.
Proof.
  intros Hb. unfold findSection.
  destruct (List.find _ sections) as [s|] eqn:E; [|done].
  apply List.find_some in E as [Hs Hid]. apply bool_decide_eq_true in Hid.
  destruct Hb. apply list_elem_of_fmap. exists s.
  by rewrite <- list_elem_of_In in Hs.
Qed.

(** X27.  The list of bookmarks shows, in the order of the bookmarks, one item
    for each bookmark that is the id of a section, with the title of
    that section; a bookmark that is the id of no section is counted in
    the heading but not shown. *)
Theorem listed_bookmarks sections bookmarks :
  map key (bookmarkItems sections bookmarks) =
    List.filter (fun b => bool_decide (b ∈ map ContentLoader.id sections))
      bookmarks /\
  (length (bookmarkItems sections bookmarks) <= bookmarkCount bookmarks)%nat /\
  forall item, item ∈ bookmarkItems sections bookmarks ->
    exists sec, sec ∈ sections /\ ContentLoader.id sec = key item /\
                ContentLoader.title sec = shown item.
Proof.
  unfold bookmarkItems, bookmarkCount. split_and!.
  - induction bookmarks as [|b bs IH]; [done|].
    cbn [omap list_omap List.filter]. unfold bookmarkItem at 1.
    destruct (decide (b ∈ map ContentLoader.id sections)) as [Hb|Hb].
    + rewrite (bool_decide_eq_true_2 _ Hb).
      destruct (findSection_Some _ _ Hb) as (sec & -> & _ & _).
      cbn. by rewrite IH.
    + rewrite (bool_decide_eq_false_2 _ Hb).
      by rewrite (findSection_None _ _ Hb).
  - induction bookmarks as [|b bs IH]; [done|].
    cbn [omap list_omap]. destruct (bookmarkItem sections b); cbn; lia.
  - intros item (b & Hb & Hi)%list_elem_of_omap.
    unfold bookmarkItem in Hi.
    destruct (findSection sections b) as [sec|] eqn:E; [|done].
    injection Hi as <-. cbn.
    apply List.find_some in E as [Hs Hid]. apply bool_decide_eq_true in Hid.
    exists sec. by rewrite <- list_elem_of_In in Hs.
Qed.

Lemma bookmarkItems_app sections bs1 bs2 :
  bookmarkItems sections (bs1 ++ bs2) =
    bookmarkItems sections bs1 ++ bookmarkItems sections bs2.
Proof. unfold bookmarkItems. apply omap_app. Qed.

(** X28.  Take a heading line [## TITLE] of a text whose title is not
    empty, consists of ASCII letters, digits and blanks and has no blank
    at either end.  Bookmarking it through the id of its rendered
    heading, when that id is not bookmarked yet, adds one item, with
    that id as its key, at the end of the list of bookmarks that the
    table of contents shows for the sections of the text; the items of
    the other bookmarks stay as they are. *)
Theorem rendered_bookmark_is_listed content TITLE bookmarks :
  Slug.plainTitle TITLE = true ->
  Slug.bareHeading TITLE ∈ split LF content ->
  MarkdownRenderer.h2Id (Slug.bareHeading TITLE) ∉ bookmarks ->
  exists item,
    bookmarkItems (ContentLoader.parseMarkdownSections content)
      (App.toggleBookmark bookmarks
         (MarkdownRenderer.h2Id (Slug.bareHeading TITLE))) =
      bookmarkItems (ContentLoader.parseMarkdownSections content) bookmarks
        ++ [item] /\
    key item = MarkdownRenderer.h2Id (Slug.bareHeading TITLE).
Proof.
  intros HP Hin Hnew.
  pose proof (BareHeadingFacts.plainTitle_valid _ HP)
    as HT%HeadingFacts.validTitle_wf.
  destruct (BareHeadingFacts.h2_bareHeading TITLE HT) as [_ E].
  rewrite E in *. clear E.
  assert (MarkdownRenderer.slugOfTitle TITLE ∈
            map ContentLoader.id (ContentLoader.parseMarkdownSections content))
    as Hid.
  { apply list_elem_of_fmap.
    exists {| ContentLoader.id := ContentLoader.slugOfTitle TITLE;
              ContentLoader.title := TITLE; ContentLoader.level := 2 |}.
    split.
    - cbn. symmetry.
      rewrite SlugFacts.slugOfTitle_collapse, SlugFacts.renderer_slug_collapse.
      apply SlugFacts.collapse_plain.
      by apply andb_prop in HP as [[? _]%andb_prop _].
    - unfold ContentLoader.parseMarkdownSections.
      rewrite ExtractorFacts.sectionsLoop_omap. cbn [app].
      apply list_elem_of_omap. exists (Slug.bareHeading TITLE).
      split; [done|]. by apply BareHeadingFacts.sectionOfLine_bareHeading. }
  destruct (findSection_Some _ _ Hid) as (sec & Ef & _ & _).
  unfold App.toggleBookmark.
  rewrite bool_decide_eq_false_2 by done.
  rewrite bookmarkItems_app. unfold bookmarkItems at 2.
  cbn [omap list_omap]. unfold bookmarkItem. rewrite Ef. by eexists.
Qed.

Lemma rendered_bookmark_is_listed_witness :
  exists item,
    bookmarkItems
      (ContentLoader.parseMarkdownSections
         (unlines ["# Guide"; "## Core Concepts"; "text"]%string))
      (App.toggleBookmark [lit "setup"]
         (MarkdownRenderer.h2Id (lit "## Core Concepts"))) =
      bookmarkItems
        (ContentLoader.parseMarkdownSections
           (unlines ["# Guide"; "## Core Concepts"; "text"]%string))
        [lit "setup"] ++ [item] /\
    key item = MarkdownRenderer.h2Id (lit "## Core Concepts").
Proof.
  apply (rendered_bookmark_is_listed
           (unlines ["# Guide"; "## Core Concepts"; "text"]%string)
           (lit "Core Concepts") [lit "setup"]).
  - reflexivity.
  - apply (bool_decide_unpack _). reflexivity.
  - apply (bool_decide_unpack _). reflexivity.
Defined.

End TableOfContentsFacts.

(** ** The search panel: the letter case of the query *)

Module QueryCaseFacts.
Import JS RegExp SearchPanel.

Lemma lowerChar_classes c :
  isSpace (lowerChar c) = isSpace c /\
  Ascii.eqb (lowerChar c) "." = Ascii.eqb c "." /\
  isSyntaxChar (lowerChar c) = isSyntaxChar c.
Proof. by destruct c as [[] [] [] [] [] [] [] []]; vm_compute. Qed.

Lemma trimStart_lower s :
  trimStart (toLowerCase s) = toLowerCase (trimStart s).
Proof.
  induction s as [|a s IH]; [done|]. cbn [toLowerCase map trimStart].
  destruct (lowerChar_classes a) as [-> _].
  by destruct (isSpace a).
Qed.

Lemma trim_lower s : trim (toLowerCase s) = toLowerCase (trim s).
Proof.
  unfold trim, trimEnd. rewrite trimStart_lower.
  unfold toLowerCase at 1. rewrite <- map_rev.
  fold (toLowerCase (rev (trimStart s))). rewrite trimStart_lower.
  unfold toLowerCase. by rewrite map_rev.
Qed.

Lemma truthy_lower s : truthy (toLowerCase s) = truthy s.
Proof. by destruct s. Qed.

(** The pattern of a query and that of its lower-case form match the
    same texts. *)
Lemma patternOf_lower q :
  match patternOf q, patternOf (toLowerCase q) with
  | Some r, Some r' =>
      forall R prev s c (k : option ascii -> jsstring -> caps -> option R),
        m r prev s c k = m r' prev s c k
  | None, None => True
  | _, _ => False
  end.
Proof.
  induction q as [|a q IH]; [done|].
  cbn [toLowerCase map patternOf]. fold (toLowerCase q).
  destruct (lowerChar_classes a) as (_ & -> & ->).
  destruct (Ascii.eqb a ".").
  - destruct (patternOf q) as [r|], (patternOf (toLowerCase q)) as [r'|];
      try done.
    cbn. intros R prev [|b s] c k; [done|]. destruct (dot b); [|done].
    apply IH.
  - destruct (isSyntaxChar a); [done|].
    destruct (patternOf q) as [r|], (patternOf (toLowerCase q)) as [r'|];
      try done.
    cbn. intros R prev [|b s] c k; [done|].
    unfold sameLetter. rewrite SlugFacts.lowerChar_idem.
    destruct (Ascii.eqb _ _); [|done]. apply IH.
Qed.

Lemma replaceAllFrom_ext r r' repl s :
  (forall prev s, matchHere r prev s = matchHere r' prev s) ->
  forall n prev,
    replaceAllFrom r repl n prev s = replaceAllFrom r' repl n prev s.
Proof.
  intros H. induction s as [|a s IH]; intros n prev.
  - destruct n; cbn [replaceAllFrom]; by rewrite ?H.
  - destruct n; cbn [replaceAllFrom]; [|by apply IH].
    rewrite H. destruct (matchHere r' prev (a :: s)) as [[s' c]|].
    + f_equal. destruct (length (a :: s) - length s')%nat; by rewrite IH.
    + by rewrite IH.
Qed.

Lemma window_lower q l : window (toLowerCase q) l = window q l.
Proof.
  unfold window. rewrite SlugFacts.toLowerCase_idem.
  by replace (length (toLowerCase q)) with (length q)
    by (symmetry; apply length_map).
Qed.

Lemma snippetOf_lower q l :
  snippetOf markPattern (toLowerCase q) l = snippetOf markPattern q l.
Proof.
  unfold snippetOf, markPattern, queryRegExp. rewrite window_lower.
  pose proof (patternOf_lower q) as H.
  destruct (patternOf q) as [r|], (patternOf (toLowerCase q)) as [r'|];
    try done.
  cbn. f_equal. unfold highlight, replaceAll. symmetry.
  apply replaceAllFrom_ext. intros prev s. unfold matchHere. cbn [m].
  apply H.
Qed.

Lemma visit_lower q st index l :
  visit markPattern (toLowerCase q) st index l = visit markPattern q st index l.
Proof.
  destruct st as [results cur]. unfold visit.
  by rewrite SlugFacts.toLowerCase_idem, snippetOf_lower.
Qed.

Lemma forEach_lower q lines :
  forall st index,
    forEach markPattern (toLowerCase q) st index lines =
      forEach markPattern q st index lines.
Proof.
  induction lines as [|l lines IH]; intros st index; [done|].
  cbn [forEach]. rewrite visit_lower.
  destruct (visit markPattern q st index l); [apply IH|done].
Qed.

Lemma searchResults_lower content q :
  searchResults markPattern content (toLowerCase q) =
    searchResults markPattern content q.
Proof.
  unfold searchResults.
  by rewrite trim_lower, truthy_lower, forEach_lower.
Qed.

Lemma coveredQuery_accepted q :
  Hits.coveredQuery q = true -> is_Some (markPattern q).
Proof.
  intros H. unfold markPattern, queryRegExp.
  assert (is_Some (patternOf q)) as [r ->]; [|done].
  induction q as [|c q IH]; [done|].
  cbn [Hits.coveredQuery forallb] in H. apply andb_prop in H as [Hc Hq].
  destruct (IH Hq) as [r Er]. cbn [patternOf]. rewrite Er.
  destruct (Ascii.eqb c "."); [done|]. cbn [orb] in Hc.
  apply negb_true_iff in Hc. by rewrite Hc.
Qed.

(** X29.  Texts and queries are strings of Latin-1 characters.  For a
    query made of characters without a meaning in a regular expression
    and of dots, the letter case of the query does not matter: the query
    and its lower-case form give the same results. *)
Theorem search_ignores_query_case content q :
  Hits.coveredQuery q = true ->
  exists rs,
    searchResults markPattern content q = Some rs /\
    searchResults markPattern content (toLowerCase q) = Some rs.
Proof.
  intros Hq%coveredQuery_accepted. rewrite searchResults_lower.
  assert (is_Some (searchResults markPattern content q)) as [rs E].
  { unfold searchResults. destruct (negb _); [done|].
    by edestruct (SearchFacts.forEach_accepted markPattern q) as [[rs cur] ->]. }
  by exists rs.
Qed.

Lemma search_ignores_query_case_witness :
  exists rs,
    searchResults markPattern Snippet.sampleDocument (lit "HeLLo") = Some rs /\
    searchResults markPattern Snippet.sampleDocument
      (toLowerCase (lit "HeLLo")) = Some rs.
Proof.
  apply (search_ignores_query_case Snippet.sampleDocument (lit "HeLLo")).
  reflexivity.
Defined.

End QueryCaseFacts.

(** ** The bookmark mark of a rendered heading *)

Module HeadingFlagFacts.
Import JS MarkdownRenderer App.

(** X30.  Toggling the bookmark of a rendered level-2 heading flips the mark
    the renderer puts on that heading, and changes nothing else about
    the element. *)
Theorem toggle_flips_heading_mark bm i line k ID TITLE b :
  elementOfLine bm i line = Some (H2 k ID TITLE b) ->
  elementOfLine (toggleBookmark bm ID) i line =
    Some (H2 k ID TITLE (negb b)).
Proof.
  unfold elementOfLine.
  destruct (startsWith (lit "# ") line); [done|].
  destruct (startsWith (lit "## ") line).
  - intros [= <- <- <- <-]. do 2 f_equal.
    pose proof (BookmarkListFacts.toggleBookmark_elem bm (h2Id line)
                  (h2Id line)) as Ht.
    rewrite bool_decide_eq_true_2 in Ht by done.
    destruct (decide (h2Id line ∈ bm)) as [Hp|Hp].
    + rewrite (bool_decide_eq_true_2 _ Hp). cbn.
      apply bool_decide_eq_false_2. naive_solver.
    + rewrite (bool_decide_eq_false_2 _ Hp). cbn.
      apply bool_decide_eq_true_2. naive_solver.
  - repeat match goal with
           | |- context [if ?c then _ else _] => destruct c
           | |- context [match RegExp.exec ?r ?l with _ => _ end] =>
               destruct (RegExp.exec r l)
           end; done.
Qed.

Lemma toggle_flips_heading_mark_witness :
  elementOfLine (toggleBookmark [] (lit "setup")) 3
    (lit "## Setup {#setup}") =
    Some (H2 3 (lit "setup") (lit "Setup") true).
Proof.
  apply (toggle_flips_heading_mark [] 3%nat (lit "## Setup {#setup}") 3%nat
           (lit "setup") (lit "Setup") false).
  reflexivity.
Defined.

End HeadingFlagFacts.

(** ** The search panel: the results of a search, line by line *)

Module MatchingLineFacts.
Import JS RegExp SearchPanel Snippet Cursor Hits.

Section AnyMarker.
Context (mark : jsstring -> option (jsstring -> jsstring)).

(** Visiting a line: a line that is searched and contains the query adds
    its result at the end, any other line adds nothing. *)
Lemma visit_hit q results pre index l rs1 c1 :
  visit mark q (results, sectionAt pre) index l = Some (rs1, c1) ->
  c1 = sectionAt (pre ++ [l]) /\
  if isHit q l
  then exists s,
         snippetOf mark q l = Some s /\
         rs1 = results ++ [{| sectionId := id (sectionAt pre);
                              sectionTitle := title (sectionAt pre);
                              snippet := s; line := (index + 1)%nat |}]
  else rs1 = results.
Proof.
  rewrite ResultFacts.sectionAt_snoc. unfold isHit, isHeader.
  destruct (exec reHeader l) as [mr|] eqn:E.
  - rewrite (IdFacts.renderer_and_search_agree mark q results _ index l mr E).
    by intros [= <- <-].
  - unfold visit. rewrite E. cbn [negb andb].
    destruct (includes _ _); [|by intros [= <- <-]].
    destruct (snippetOf mark q l) as [s|]; [|done].
    cbn. intros [= <- <-]. split; [done|]. by exists s.
Qed.

Lemma forEach_hits q whole lines :
  forall pre results results' cur',
  whole = pre ++ lines ->
  forEach mark q (results, sectionAt pre) (length pre) lines =
    Some (results', cur') ->
  exists more,
    results' = results ++ more /\
    Forall2
      (fun hit r =>
         includes (toLowerCase q) (toLowerCase hit.2) = true /\
         line r = (hit.1 + 1)%nat /\
         snippetOf mark q hit.2 = Some (snippet r) /\
         sectionId r = id (sectionAt (take hit.1 whole)) /\
         sectionTitle r = title (sectionAt (take hit.1 whole)))
      (List.filter (fun hit => isHit q hit.2)
         (numberedFrom (length pre) lines))
      more.
Proof.
  induction lines as [|l lines IH]; intros pre results results' cur' Hw.
  - intros [= <- <-]. exists []. split; [by rewrite app_nil_r|constructor].
  - cbn [forEach].
    destruct (visit mark q (results, sectionAt pre) (length pre) l)
      as [[rs1 c1]|] eqn:Ev; [|done].
    cbn [mbind option_bind]. intros E.
    destruct (visit_hit _ _ _ _ _ _ _ Ev) as [-> Hrs].
    replace (S (length pre)) with (length (pre ++ [l])) in E
      by (rewrite length_app; cbn; lia).
    destruct (IH (pre ++ [l]) rs1 results' cur') as (more & -> & HF);
      [by rewrite Hw, <- app_assoc|done|].
    rewrite length_app in HF. cbn [length] in HF.
    rewrite Nat.add_1_r in HF.
    cbn [numberedFrom List.filter snd].
    destruct (isHit q l) eqn:Eh.
    + destruct Hrs as (s & Es & ->).
      eexists (_ :: more). split; [by rewrite <- app_assoc|].
      constructor; [|done]. cbn [fst snd line snippet sectionId sectionTitle].
      rewrite Hw, take_app_length.
      apply andb_prop in Eh as [_ Eh]. by split_and!.
    + rewrite Hrs. by exists more.
Qed.

End AnyMarker.

(** C4, amended.  Texts and queries are strings of Latin-1 characters.
    For every query that is not empty once trimmed and is made of
    characters without a meaning in a regular expression, and every line
    that is not a level-2 heading line and whose lower-case form contains
    the lower-case query, visiting the line records one result.  Its
    snippet is the window of up to 30 characters before and up to 30
    after the first occurrence of the query, cut at the ends of the line,
    with an ellipsis in front exactly when the window starts behind the
    first character of the line and one at the end exactly when it stops
    before the last, and with the occurrences of the query, found from
    the left without overlap and letter case aside, each wrapped in the
    highlight marker.  The result carries the current section and the
    1-based line number.  The results of a search are the first 20 of the
    results recorded this way: one for each such line of the text, in the
    order of the lines, each with the number, the snippet and the section
    of its line. *)
Theorem snippet_of_matching_line q :
  truthy (trim q) = true -> plainQueryb q = true ->
  (forall line,
     exec reHeader line = None ->
     includes (toLowerCase q) (toLowerCase line) = true ->
     recordsSnippet q line) /\
  (forall content,
     exists all,
       searchResults markPattern content q = Some (take 20 all) /\
       Forall2 (resultAt q (split LF content))
         (hits q (split LF content)) all).
Proof.
  intros Ht Hp%SnippetFacts.plainQueryb_spec.
  assert (Hq : q <> []) by (by destruct q).
  split.
  - intros line Hh Hin results cur index.
    destruct (SnippetFacts.snippetOf_plain q line Hq Hp Hin) as (s & Es & H).
    exists s. split; [done|]. unfold visit. by rewrite Hh, Hin, Es.
  - intros content. unfold searchResults. rewrite Ht. cbn [negb].
    destruct (SearchFacts.forEach_accepted markPattern q
                ([], {| id := lit "intro"; title := lit "Introduction" |})
                0 (split LF content) (SearchFacts.markPattern_plain q Hp))
      as [[all cur'] E].
    rewrite E. cbn [mbind option_bind]. exists all. split; [done|].
    destruct (forEach_hits markPattern q (split LF content)
                (split LF content) [] [] all cur' eq_refl E)
      as (more & -> & HF).
    cbn [app]. unfold hits. cbn [length] in HF.
    eapply Forall2_impl; [exact HF|]. cbv beta.
    intros hit r (Hi & Hn & Es & Hid & Htt).
    split; [|done]. split; [done|].
    destruct (SnippetFacts.snippetOf_plain q hit.2 Hq Hp Hi) as (s' & E' & H).
    congruence.
Qed.

(** The query [hello], on the line [Hello world] and on the document of
    the scenarios. *)
Lemma snippet_of_matching_line_witness :
  recordsSnippet (lit "hello") (lit "Hello world") /\
  exists all,
    searchResults markPattern sampleDocument (lit "hello") =
      Some (take 20 all) /\
    Forall2 (resultAt (lit "hello") (split LF sampleDocument))
      (hits (lit "hello") (split LF sampleDocument)) all.
Proof.
  destruct (snippet_of_matching_line (lit "hello") eq_refl eq_refl)
    as [H1 H2].
  split; [apply H1; reflexivity|apply H2].
Defined.

End MatchingLineFacts.
